(** * picolog: the subscriber registry and the dispatcher

    A shallow embedding of [src/picolog.c] and [src/picolog.h].

    The two file-scope arrays of the C file, [s_subscribers] and
    [s_message], are passed explicitly to the functions that read or
    write them.  Calls that leave the translation unit (the C library's
    [printf] and [vsnprintf], and the subscribers called through their
    function pointers) are recorded as a list of events in the order in
    which the code performs them.

    Subscribers are taken to honour the contract of the header: they may
    print or copy the message they are handed, they do not write through
    the pointer and they do not call back into picolog while a message
    is being delivered. *)

From stdpp Require Import base decidable option numbers list.
From Stdlib Require Import ZArith Strings.Byte Lia.

Local Open Scope Z_scope.

(** ** picolog.h *)

(** [picolog_level_t]: a C enumeration, that is an integer type.  The
    enumerators are the integers 100 to 106; a zeroed slot holds 0,
    which is none of them. *)
Definition picolog_level_t : Set := Z.

Definition PICOLOG_TRACE_LEVEL : picolog_level_t := 100.
Definition PICOLOG_DEBUG_LEVEL : picolog_level_t := 101.
Definition PICOLOG_INFO_LEVEL : picolog_level_t := 102.
Definition PICOLOG_WARNING_LEVEL : picolog_level_t := 103.
Definition PICOLOG_ERROR_LEVEL : picolog_level_t := 104.
Definition PICOLOG_CRITICAL_LEVEL : picolog_level_t := 105.
Definition PICOLOG_ALWAYS_LEVEL : picolog_level_t := 106.

(** The level enumeration, TRACE to ALWAYS, in declaration order. *)
Definition picolog_levels : list picolog_level_t :=
  [ PICOLOG_TRACE_LEVEL; PICOLOG_DEBUG_LEVEL; PICOLOG_INFO_LEVEL;
    PICOLOG_WARNING_LEVEL; PICOLOG_ERROR_LEVEL; PICOLOG_CRITICAL_LEVEL;
    PICOLOG_ALWAYS_LEVEL ].

Inductive picolog_err_t : Set :=
  | PICOLOG_ERR_NONE
  | PICOLOG_ERR_SUBSCRIBERS_EXCEEDED
  | PICOLOG_ERR_NOT_SUBSCRIBED.

(** The two configuration macros.  The header gives them the values 6
    and 120 unless the build defines them; an array dimension is
    positive in C. *)
Class picolog_config : Set := {
  PICOLOG_MAX_SUBSCRIBERS : nat;
  PICOLOG_MAX_MESSAGE_LENGTH : nat;
  max_subscribers_pos : (0 < PICOLOG_MAX_SUBSCRIBERS)%nat;
  max_message_length_pos : (0 < PICOLOG_MAX_MESSAGE_LENGTH)%nat
}.

(** The configuration of the header as it stands. *)
Definition default_config : picolog_config :=
  {| PICOLOG_MAX_SUBSCRIBERS := 6;
     PICOLOG_MAX_MESSAGE_LENGTH := 120;
     max_subscribers_pos := Nat.lt_0_succ 5;
     max_message_length_pos := Nat.lt_0_succ 119 |}.

(** [picolog_function_t]: a pointer to a subscriber function.  Two such
    pointers compare equal when both are null or both point to the same
    function, so a pointer is NULL, the address of [picolog_format], or
    the address of one of the caller's functions, told apart by a
    number. *)
Inductive picolog_function_t : Set :=
  | NULL
  | picolog_format
  | user_fn (id : nat).

#[global] Instance picolog_function_eq_dec : EqDecision picolog_function_t.
Proof. solve_decision. Defined.

#[global] Instance picolog_err_eq_dec : EqDecision picolog_err_t.
Proof. solve_decision. Defined.

(** ** picolog.c: types and local storage *)

Record subscriber_t : Set := mk_subscriber {
  fn : picolog_function_t;
  threshold : picolog_level_t
}.

#[global] Instance subscriber_eq_dec : EqDecision subscriber_t.
Proof. solve_decision. Defined.

(** A slot whose bytes are all zero: a null pointer and the level 0. *)
Definition zero_subscriber : subscriber_t :=
  {| fn := NULL; threshold := 0 |}.

#[global] Instance subscriber_inhabited : Inhabited subscriber_t :=
  populate zero_subscriber.

(** The null character that ends a C string. *)
Definition NUL : byte := x00.

#[global] Instance byte_eq_dec : EqDecision byte := Byte.byte_eq_dec.

(** ** Control flow: a counted [for] loop that may [return] from its body *)

Inductive loop_step (A R : Type) : Type :=
  | Continue (acc : A)
  | Return (r : R).
Arguments Continue {A R} acc.
Arguments Return {A R} r.

(** [for_loop n i body acc] runs [body i], [body (i+1)], ... for [n]
    rounds, threading the local variables [acc], and stops at the first
    [Return]. *)
Fixpoint for_loop {A R : Type} (n : nat) (i : nat)
    (body : nat → A → loop_step A R) (acc : A) : loop_step A R :=
  match n with
  | O => Continue acc
  | S n' =>
      match body i acc with
      | Return r => Return r
      | Continue acc' => for_loop n' (S i) body acc'
      end
  end.

Section Picolog.

Context `{cfg : picolog_config}.

(** ** Calls that leave the file *)

(** The variadic arguments of a call and the text that the C library's
    formatting makes of a format and its arguments are not picolog's
    business: the development holds for any. *)
Variable va_list : Type.
Variable printf_expand : list byte → va_list → list byte.

Inductive event : Type :=
  | Ev_printf (out : list byte)
  | Ev_vsnprintf (n : nat) (fmt : list byte) (ap : va_list)
  | Ev_call (f : picolog_function_t) (severity : picolog_level_t)
      (msg : list byte).

(** [vsnprintf(s, n, fmt, ap)], with [out] the full expansion of [fmt]
    and [ap]: nothing is written when [n] is 0; otherwise the first
    [n-1] characters of [out] and then a null character are stored at
    the start of [s], the rest of [s] keeping its contents.  Storing past
    the end of [s] has no defined result: [None]. *)
Definition vsnprintf (s : list byte) (n : nat) (out : list byte)
    : option (list byte) :=
  match n with
  | O => Some s
  | S m =>
      let written := take m out ++ [NUL] in
      if decide (length written ≤ length s)%nat
      then Some (written ++ drop (length written) s)
      else None
  end.

(** The C string held in a character array: the characters before the
    first null character. *)
Fixpoint c_string (s : list byte) : list byte :=
  match s with
  | [] => []
  | c :: s' => if decide (c = NUL) then [] else c :: c_string s'
  end.

(** ** picolog.c: user-visible code *)

(** [memset(s_subscribers, 0, sizeof(s_subscribers))]: every slot gets
    the all-zero bytes, which the code reads back as a null pointer. *)
Definition memset_subscribers : list subscriber_t :=
  replicate PICOLOG_MAX_SUBSCRIBERS zero_subscriber.

(** [picolog_subscribe]: the loop leaves through its first branch as soon
    as a slot holds [fn]; otherwise [available_slot] ends as the index of
    the free slot seen last, or -1. *)
Definition picolog_subscribe (fn0 : picolog_function_t)
    (threshold0 : picolog_level_t) (s_subscribers : list subscriber_t)
    : picolog_err_t * list subscriber_t :=
  let scan :=
    for_loop PICOLOG_MAX_SUBSCRIBERS 0%nat
      (λ i (available_slot : Z),
         if decide (fn (s_subscribers !!! i) = fn0) then
           Return (PICOLOG_ERR_NONE,
                   <[i := {| fn := fn (s_subscribers !!! i);
                             threshold := threshold0 |}]> s_subscribers)
         else if decide (fn (s_subscribers !!! i) = NULL) then
           Continue (Z.of_nat i)
         else Continue available_slot)
      (-1) in
  match scan with
  | Return r => r
  | Continue available_slot =>
      if decide (available_slot = -1) then
        (PICOLOG_ERR_SUBSCRIBERS_EXCEEDED, s_subscribers)
      else
        (PICOLOG_ERR_NONE,
         <[Z.to_nat available_slot :=
             {| fn := fn0; threshold := threshold0 |}]> s_subscribers)
  end.

(** [picolog_unsubscribe]: the first slot that holds [fn] has its [fn]
    field set to NULL; its [threshold] field is not written. *)
Definition picolog_unsubscribe (fn0 : picolog_function_t)
    (s_subscribers : list subscriber_t)
    : picolog_err_t * list subscriber_t :=
  let scan :=
    for_loop PICOLOG_MAX_SUBSCRIBERS 0%nat
      (λ i (_ : unit),
         if decide (fn (s_subscribers !!! i) = fn0) then
           Return (PICOLOG_ERR_NONE,
                   <[i := {| fn := NULL;
                             threshold := threshold (s_subscribers !!! i) |}]>
                     s_subscribers)
         else Continue tt)
      tt in
  match scan with
  | Return r => r
  | Continue _ => (PICOLOG_ERR_NOT_SUBSCRIBED, s_subscribers)
  end.

(** The escape sequence that [picolog_init] prints: ESC [ 2 J. *)
Definition clear_screen : list byte := [x1b; x5b; x32; x4a].

(** [picolog_init]: the result of the inner [picolog_subscribe] is
    dropped, as in the source. *)
Definition picolog_init (threshold0 : picolog_level_t)
    (s_subscribers : list subscriber_t)
    : list event * list subscriber_t :=
  let s_subscribers1 := memset_subscribers in
  ([Ev_printf clear_screen],
   snd (picolog_subscribe picolog_format threshold0 s_subscribers1)).

(** [picolog_message]: one [vsnprintf] into [s_message], then one pass
    over the table.  The result is the new contents of [s_message] and
    the calls made, or [None] when [vsnprintf] stores out of bounds. *)
Definition picolog_message (severity : picolog_level_t) (fmt : list byte)
    (ap : va_list) (s_subscribers : list subscriber_t)
    (s_message : list byte) : option (list byte * list event) :=
  match vsnprintf s_message PICOLOG_MAX_MESSAGE_LENGTH
          (printf_expand fmt ap) with
  | None => None
  | Some s_message1 =>
      let pass : loop_step (list event) Empty_set :=
        for_loop PICOLOG_MAX_SUBSCRIBERS 0%nat
          (λ i calls,
             if decide (fn (s_subscribers !!! i) ≠ NULL) then
               if decide (severity >= threshold (s_subscribers !!! i)) then
                 Continue
                   (calls ++
                    [Ev_call (fn (s_subscribers !!! i)) severity s_message1])
               else Continue calls
             else Continue calls)
          [Ev_vsnprintf PICOLOG_MAX_MESSAGE_LENGTH fmt ap] in
      match pass with
      | Continue calls => Some (s_message1, calls)
      | Return r => match r with end
      end
  end.

(** ** Vocabulary of the specification *)

(** The column of function pointers of the table, slot by slot. *)
Definition fns (s_subscribers : list subscriber_t)
    : list picolog_function_t :=
  fn <$> s_subscribers.

(** A slot is free when its [fn] field is NULL, and live otherwise; the
    registry's subscribers are its live slots, in slot order. *)
Definition live (s_subscribers : list subscriber_t) : list subscriber_t :=
  filter (λ s, fn s ≠ NULL) s_subscribers.

Definition live_fns (s_subscribers : list subscriber_t)
    : list picolog_function_t :=
  filter (λ f, f ≠ NULL) (fns s_subscribers).

(** The entries that [f] has in the table. *)
Definition entries_of (f : picolog_function_t)
    (s_subscribers : list subscriber_t) : list subscriber_t :=
  filter (λ s, fn s = f) s_subscribers.

(** The registry invariant: the table has its declared dimension and no
    two live slots hold the same function pointer. *)
Definition registry_inv (s_subscribers : list subscriber_t) : Prop :=
  length s_subscribers = PICOLOG_MAX_SUBSCRIBERS ∧
  NoDup (live_fns s_subscribers).

#[global] Instance registry_inv_dec tbl : Decision (registry_inv tbl).
Proof. unfold registry_inv. apply _. Defined.

(** The message buffer has its declared dimension. *)
Definition buffer_inv (s_message : list byte) : Prop :=
  length s_message = PICOLOG_MAX_MESSAGE_LENGTH.

(** The first free slot met by an ascending scan, and the last one. *)
Definition first_free (s_subscribers : list subscriber_t) : option nat :=
  fst <$> list_find (λ s, fn s = NULL) s_subscribers.

Fixpoint last_free_from (i : nat) (slots : list subscriber_t)
    : option nat :=
  match slots with
  | [] => None
  | s :: slots' =>
      match last_free_from (S i) slots' with
      | Some k => Some k
      | None => if decide (fn s = NULL) then Some i else None
      end
  end.

Definition last_free (s_subscribers : list subscriber_t) : option nat :=
  last_free_from 0 s_subscribers.

(** The registry operations, and the table after a sequence of them. *)
Inductive registry_op : Set :=
  | Op_init (threshold0 : picolog_level_t)
  | Op_subscribe (f : picolog_function_t) (threshold0 : picolog_level_t)
  | Op_unsubscribe (f : picolog_function_t).

Definition run_op (s_subscribers : list subscriber_t) (op : registry_op)
    : list subscriber_t :=
  match op with
  | Op_init t => snd (picolog_init t s_subscribers)
  | Op_subscribe f t => snd (picolog_subscribe f t s_subscribers)
  | Op_unsubscribe f => snd (picolog_unsubscribe f s_subscribers)
  end.

Definition run_ops (ops : list registry_op)
    (s_subscribers : list subscriber_t) : list subscriber_t :=
  foldl run_op s_subscribers ops.

(** [subscribe(f, t)] called once for each [t] of a list, in order: the
    results of the calls and the table at the end. *)
Fixpoint subscribe_seq (f : picolog_function_t)
    (ts : list picolog_level_t) (s_subscribers : list subscriber_t)
    : list picolog_err_t * list subscriber_t :=
  match ts with
  | [] => ([], s_subscribers)
  | t :: ts' =>
      let r := picolog_subscribe f t s_subscribers in
      let rs := subscribe_seq f ts' (snd r) in
      (fst r :: fst rs, snd rs)
  end.

(** The registry's [for_each_matching(severity, deliver)] of the
    specification: the live slots whose threshold is at most [severity],
    in slot order, each handed [severity] and the message. *)
Definition for_each_matching (severity : picolog_level_t)
    (msg : list byte) (s_subscribers : list subscriber_t) : list event :=
  (λ s, Ev_call (fn s) severity msg) <$>
    filter (λ s, fn s ≠ NULL ∧ threshold s <= severity) s_subscribers.

(** The number of times a trace calls the function [f]. *)
Definition is_call_to (f : picolog_function_t) (e : event) : bool :=
  match e with
  | Ev_call g _ _ => bool_decide (g = f)
  | _ => false
  end.

Definition calls_to (f : picolog_function_t) (tr : list event) : nat :=
  length (filter (λ e, is_call_to f e) tr).

(** The number of [vsnprintf] calls in a trace. *)
Definition is_format (e : event) : bool :=
  match e with
  | Ev_vsnprintf _ _ _ => true
  | _ => false
  end.

Definition formats (tr : list event) : nat :=
  length (filter (λ e, is_format e) tr).

(** ** picolog.c: level names and the console formatter *)

(** [picolog_level_name]: the [switch] over the seven enumerators, with
    its [default].  The names are the characters of the C literals. *)
Definition picolog_level_name (severity : picolog_level_t) : list byte :=
  if decide (severity = PICOLOG_TRACE_LEVEL) then
    [x54; x52; x41; x43; x45]                       (* TRACE *)
  else if decide (severity = PICOLOG_DEBUG_LEVEL) then
    [x44; x45; x42; x55; x47]                       (* DEBUG *)
  else if decide (severity = PICOLOG_INFO_LEVEL) then
    [x49; x4e; x46; x4f]                            (* INFO *)
  else if decide (severity = PICOLOG_WARNING_LEVEL) then
    [x57; x41; x52; x4e; x49; x4e; x47]             (* WARNING *)
  else if decide (severity = PICOLOG_ERROR_LEVEL) then
    [x45; x52; x52; x4f; x52]                       (* ERROR *)
  else if decide (severity = PICOLOG_CRITICAL_LEVEL) then
    [x43; x52; x49; x54; x49; x43; x41; x4c]        (* CRITICAL *)
  else if decide (severity = PICOLOG_ALWAYS_LEVEL) then
    [x41; x4c; x57; x41; x59; x53]                  (* ALWAYS *)
  else
    [x55; x4e; x4b; x4e; x4f; x57; x4e].            (* UNKNOWN *)

(** The name that the [default] of [picolog_level_name] returns. *)
Definition UNKNOWN : list byte := [x55; x4e; x4b; x4e; x4f; x57; x4e].

(** The colour macros of the private part: ESC [ digits m. *)
Definition NORMAL : list byte := [x1b; x5b; x30; x6d].
Definition RED : list byte := [x1b; x5b; x33; x31; x6d].
Definition GREEN : list byte := [x1b; x5b; x33; x32; x6d].
Definition YELLOW : list byte := [x1b; x5b; x33; x33; x6d].
Definition BLUE : list byte := [x1b; x5b; x33; x34; x6d].
Definition MAGENTA : list byte := [x1b; x5b; x33; x35; x6d].
Definition CYAN : list byte := [x1b; x5b; x33; x36; x6d].
Definition WHITE : list byte := [x1b; x5b; x33; x37; x6d].

(** What [printf] writes for the format of [picolog_format], four string
    conversions with a bracket pair, two spaces and a newline between
    them; a string conversion writes its argument up to the null
    character, and the three literal arguments have none. *)
Definition printf_line (colour name msg reset : list byte) : list byte :=
  colour ++ [x5b] ++ name ++ [x5d; x20] ++ c_string msg ++ [x20] ++
  reset ++ [x0a].

(** The function [picolog_format] of the source, the one that the
    pointer [picolog_format] designates: a [switch] whose seven cases
    print one line each, and which has no [default]. *)
Definition picolog_format_body (severity : picolog_level_t)
    (msg : list byte) : list event :=
  if decide (severity = PICOLOG_ALWAYS_LEVEL) then
    [Ev_printf (printf_line BLUE (picolog_level_name severity) msg NORMAL)]
  else if decide (severity = PICOLOG_CRITICAL_LEVEL) then
    [Ev_printf (printf_line MAGENTA (picolog_level_name severity) msg NORMAL)]
  else if decide (severity = PICOLOG_ERROR_LEVEL) then
    [Ev_printf (printf_line RED (picolog_level_name severity) msg NORMAL)]
  else if decide (severity = PICOLOG_WARNING_LEVEL) then
    [Ev_printf (printf_line YELLOW (picolog_level_name severity) msg NORMAL)]
  else if decide (severity = PICOLOG_INFO_LEVEL) then
    [Ev_printf (printf_line GREEN (picolog_level_name severity) msg NORMAL)]
  else if decide (severity = PICOLOG_DEBUG_LEVEL) then
    [Ev_printf (printf_line WHITE (picolog_level_name severity) msg NORMAL)]
  else if decide (severity = PICOLOG_TRACE_LEVEL) then
    [Ev_printf (printf_line NORMAL (picolog_level_name severity) msg NORMAL)]
  else [].

(** What a trace writes to the standard output through picolog's own
    code: the [printf] of [picolog_init], and for every call of
    [picolog_format] what its body prints.  What the caller's own
    subscribers print is theirs. *)
Definition printed (e : event) : list byte :=
  match e with
  | Ev_printf out => out
  | _ => []
  end.

Definition stdout_of (tr : list event) : list byte :=
  e ← tr;
  match e with
  | Ev_printf out => out
  | Ev_vsnprintf _ _ _ => []
  | Ev_call f severity msg =>
      if decide (f = picolog_format)
      then e' ← picolog_format_body severity msg; printed e'
      else []
  end.

(** ** picolog.h: the logging macros, with [PICOLOG_ENABLED] defined *)

Definition PICOLOG_TRACE := picolog_message PICOLOG_TRACE_LEVEL.
Definition PICOLOG_DEBUG := picolog_message PICOLOG_DEBUG_LEVEL.
Definition PICOLOG_INFO := picolog_message PICOLOG_INFO_LEVEL.
Definition PICOLOG_WARNING := picolog_message PICOLOG_WARNING_LEVEL.
Definition PICOLOG_ERROR := picolog_message PICOLOG_ERROR_LEVEL.
Definition PICOLOG_CRITICAL := picolog_message PICOLOG_CRITICAL_LEVEL.
Definition PICOLOG_ALWAYS := picolog_message PICOLOG_ALWAYS_LEVEL.

(** ** Programs: sequences of calls on the two arrays *)






(** [subscribe(fn s, threshold s)] for each [s] of a list, in order. *)
Definition subscribe_all (subs : list subscriber_t)
    (s_subscribers : list subscriber_t) : list subscriber_t :=
  foldl (λ tbl s, snd (picolog_subscribe (fn s) (threshold s) tbl))
    s_subscribers subs.

(** ** The loops, slot by slot *)

(** Reading slot [i] of a table whose suffix from [i] is [s :: rest]. *)
Lemma drop_head_total (tbl : list subscriber_t) i s rest :
  drop i tbl = s :: rest → tbl !!! i = s ∧ drop (S i) tbl = rest.
Proof.
  intros Hd. split.
  - apply list_lookup_total_correct.
    rewrite <- (Nat.add_0_r i), <- lookup_drop, Hd. done.
  - replace (S i) with (i + 1)%nat by lia.
    rewrite <- drop_drop, Hd. done.
Qed.

(** The scan of [picolog_subscribe], started at slot [i] with
    [available_slot = acc], over the slots [i ..]. *)
Lemma subscribe_scan f t (tbl : list subscriber_t) n i (acc : Z) :
  length (drop i tbl) = n →
  for_loop n i
    (λ i (available_slot : Z),
       if decide (fn (tbl !!! i) = f) then
         Return (PICOLOG_ERR_NONE,
                 <[i := {| fn := fn (tbl !!! i); threshold := t |}]> tbl)
       else if decide (fn (tbl !!! i) = NULL) then Continue (Z.of_nat i)
       else Continue available_slot) acc
  = match list_find (λ s, fn s = f) (drop i tbl) with
    | Some (j, s) =>
        Return (PICOLOG_ERR_NONE,
                <[(i + j)%nat := {| fn := fn s; threshold := t |}]> tbl)
    | None =>
        Continue (match last_free_from i (drop i tbl) with
                  | Some k => Z.of_nat k
                  | None => acc
                  end)
    end.
Proof.
  revert i acc. induction n as [|n IH]; intros i acc Hlen.
  - apply nil_length_inv in Hlen. rewrite Hlen. done.
  - destruct (drop i tbl) as [|s rest] eqn:Hd; [done|].
    destruct (drop_head_total _ _ _ _ Hd) as [Hi Hrest].
    simpl in Hlen. injection Hlen as Hlen.
    cbn [for_loop list_find last_free_from]. rewrite Hi.
    destruct (decide (fn s = f)) as [Hf|Hf].
    + cbn. by rewrite Nat.add_0_r.
    + cbn. destruct (decide (fn s = NULL)).
      all: rewrite IH by (by rewrite Hrest); rewrite Hrest.
      all: destruct (list_find (λ s0, fn s0 = f) rest) as [[j s']|]; cbn.
      all: rewrite ?Nat.add_succ_r; try done.
      all: by destruct (last_free_from (S i) rest).
Qed.

(** The scan of [picolog_unsubscribe] from slot [i]. *)
Lemma unsubscribe_scan f (tbl : list subscriber_t) n i :
  length (drop i tbl) = n →
  for_loop n i
    (λ i (_ : unit),
       if decide (fn (tbl !!! i) = f) then
         Return (PICOLOG_ERR_NONE,
                 <[i := {| fn := NULL; threshold := threshold (tbl !!! i) |}]>
                   tbl)
       else Continue tt) tt
  = match list_find (λ s, fn s = f) (drop i tbl) with
    | Some (j, s) =>
        Return (PICOLOG_ERR_NONE,
                <[(i + j)%nat := {| fn := NULL; threshold := threshold s |}]>
                  tbl)
    | None => Continue tt
    end.
Proof.
  revert i. induction n as [|n IH]; intros i Hlen.
  - apply nil_length_inv in Hlen. rewrite Hlen. done.
  - destruct (drop i tbl) as [|s rest] eqn:Hd; [done|].
    destruct (drop_head_total _ _ _ _ Hd) as [Hi Hrest].
    simpl in Hlen. injection Hlen as Hlen.
    cbn [for_loop list_find]. rewrite Hi.
    destruct (decide (fn s = f)) as [Hf|Hf].
    + cbn. by rewrite Nat.add_0_r.
    + cbn. rewrite IH by (by rewrite Hrest). rewrite Hrest.
      destruct (list_find (λ s0, fn s0 = f) rest) as [[j s']|]; cbn.
      * by rewrite Nat.add_succ_r.
      * done.
Qed.

(** The delivery pass of [picolog_message] from slot [i]. *)
Lemma message_pass severity msg (tbl : list subscriber_t) n i
    (calls : list event) :
  length (drop i tbl) = n →
  for_loop (R := Empty_set) n i
    (λ i calls,
       if decide (fn (tbl !!! i) ≠ NULL) then
         if decide (severity >= threshold (tbl !!! i)) then
           Continue (calls ++ [Ev_call (fn (tbl !!! i)) severity msg])
         else Continue calls
       else Continue calls) calls
  = Continue (calls ++ for_each_matching severity msg (drop i tbl)).
Proof.
  revert i calls. induction n as [|n IH]; intros i calls Hlen.
  - apply nil_length_inv in Hlen. rewrite Hlen. cbn. by rewrite app_nil_r.
  - destruct (drop i tbl) as [|s rest] eqn:Hd; [done|].
    destruct (drop_head_total _ _ _ _ Hd) as [Hi Hrest].
    simpl in Hlen. injection Hlen as Hlen.
    cbn [for_loop]. rewrite Hi. unfold for_each_matching.
    rewrite filter_cons.
    destruct (decide (fn s ≠ NULL)) as [Hlive|Hfree].
    + destruct (decide (severity >= threshold s)) as [Hge|Hlt].
      * rewrite IH by (by rewrite Hrest). rewrite Hrest.
        rewrite decide_True by (split; [done|lia]).
        rewrite fmap_cons, <- app_assoc. done.
      * rewrite IH by (by rewrite Hrest). rewrite Hrest.
        rewrite decide_False by (intros [_ ?]; lia). done.
    + rewrite IH by (by rewrite Hrest). rewrite Hrest.
      rewrite decide_False by (intros [? _]; done). done.
Qed.

(** ** The three functions as list operations *)

Lemma last_free_from_None i (slots : list subscriber_t) :
  last_free_from i slots = None ↔ Forall (λ s, fn s ≠ NULL) slots.
Proof.
  revert i. induction slots as [|s slots IH]; intros i; cbn.
  - split; [constructor|done].
  - rewrite Forall_cons. specialize (IH (S i)).
    destruct (last_free_from (S i) slots) as [k|].
    + split; [done|]. intros [_ Hall]. by apply IH in Hall.
    + destruct (decide (fn s = NULL)); split; try done.
      * intros [? _]. done.
      * intros _. split; [done|]. by apply IH.
Qed.

Lemma last_free_from_Some i (slots : list subscriber_t) k :
  last_free_from i slots = Some k →
  ∃ j s, k = (i + j)%nat ∧ slots !! j = Some s ∧ fn s = NULL ∧
         ∀ j' s', (j < j')%nat → slots !! j' = Some s' → fn s' ≠ NULL.
Proof.
  revert i k. induction slots as [|s slots IH]; intros i k; cbn; [done|].
  destruct (last_free_from (S i) slots) as [k'|] eqn:Hlast.
  - intros [= <-]. destruct (IH _ _ Hlast) as (j & s' & -> & Hj & Hs' & Hafter).
    exists (S j), s'. split_and!; [lia|done|done|].
    intros [|j'] s'' Hlt Hj'; [lia|]. apply (Hafter j'); [lia|done].
  - destruct (decide (fn s = NULL)) as [Hs|]; [|done]. intros [= <-].
    exists 0%nat, s. split_and!; [lia|done|done|].
    intros [|j'] s' Hlt Hj'; [lia|].
    apply last_free_from_None in Hlast.
    rewrite Forall_lookup in Hlast. by apply (Hlast j').
Qed.

Lemma picolog_subscribe_spec f t (tbl : list subscriber_t) :
  length tbl = PICOLOG_MAX_SUBSCRIBERS →
  picolog_subscribe f t tbl =
    match list_find (λ s, fn s = f) tbl with
    | Some (j, s) =>
        (PICOLOG_ERR_NONE, <[j := {| fn := fn s; threshold := t |}]> tbl)
    | None =>
        match last_free tbl with
        | Some k =>
            (PICOLOG_ERR_NONE, <[k := {| fn := f; threshold := t |}]> tbl)
        | None => (PICOLOG_ERR_SUBSCRIBERS_EXCEEDED, tbl)
        end
    end.
Proof.
  intros Hlen. unfold picolog_subscribe, last_free.
  rewrite subscribe_scan by (by rewrite drop_0). rewrite drop_0.
  destruct (list_find _ tbl) as [[j s]|]; [done|].
  destruct (last_free_from 0 tbl) as [k|].
  - rewrite decide_False by lia. by rewrite Nat2Z.id.
  - by rewrite decide_True.
Qed.

Lemma picolog_unsubscribe_spec f (tbl : list subscriber_t) :
  length tbl = PICOLOG_MAX_SUBSCRIBERS →
  picolog_unsubscribe f tbl =
    match list_find (λ s, fn s = f) tbl with
    | Some (j, s) =>
        (PICOLOG_ERR_NONE,
         <[j := {| fn := NULL; threshold := threshold s |}]> tbl)
    | None => (PICOLOG_ERR_NOT_SUBSCRIBED, tbl)
    end.
Proof.
  intros Hlen. unfold picolog_unsubscribe.
  rewrite unsubscribe_scan by (by rewrite drop_0). rewrite drop_0.
  by destruct (list_find _ tbl) as [[j s]|].
Qed.

Lemma picolog_message_spec severity fmt ap (tbl : list subscriber_t)
    (buf : list byte) :
  length tbl = PICOLOG_MAX_SUBSCRIBERS →
  picolog_message severity fmt ap tbl buf =
    (λ buf', (buf', Ev_vsnprintf PICOLOG_MAX_MESSAGE_LENGTH fmt ap ::
                      for_each_matching severity buf' tbl)) <$>
      vsnprintf buf PICOLOG_MAX_MESSAGE_LENGTH (printf_expand fmt ap).
Proof.
  intros Hlen. unfold picolog_message.
  destruct (vsnprintf _ _ _) as [buf'|]; [|done].
  rewrite message_pass by (by rewrite drop_0). by rewrite drop_0.
Qed.

(** ** Live slots and the registry invariant *)

(** No two live slots share a function pointer, said with indices. *)
Lemma NoDup_live_alt (l : list picolog_function_t) :
  NoDup (filter (λ f, f ≠ NULL) l) ↔
  ∀ i j f, l !! i = Some f → l !! j = Some f → f ≠ NULL → i = j.
Proof.
  induction l as [|x l IH].
  - split; [by intros _ i j f ?|intros _; constructor].
  - rewrite filter_cons. destruct (decide (x ≠ NULL)) as [Hx|Hx].
    + rewrite NoDup_cons, list_elem_of_filter, IH. split.
      * intros [Hnotin Hl] [|i] [|j] f Hi Hj Hf; simplify_eq/=; try done.
        -- destruct Hnotin. split; [done|]. by eapply list_elem_of_lookup_2.
        -- destruct Hnotin. split; [done|]. by eapply list_elem_of_lookup_2.
        -- f_equal. by eapply Hl.
      * intros H. split.
        -- intros [_ Hin]. apply list_elem_of_lookup_1 in Hin as [j Hj].
           by specialize (H 0%nat (S j) x eq_refl Hj Hx).
        -- intros i j f Hi Hj Hf.
           by specialize (H (S i) (S j) f Hi Hj Hf) as [= ->].
    + rewrite IH. split.
      * intros Hl [|i] [|j] f Hi Hj Hf; simplify_eq/=; try done.
        f_equal. by eapply Hl.
      * intros H i j f Hi Hj Hf.
        by specialize (H (S i) (S j) f Hi Hj Hf) as [= ->].
Qed.

Lemma registry_unique (tbl : list subscriber_t) i j si sj :
  NoDup (live_fns tbl) →
  tbl !! i = Some si → tbl !! j = Some sj →
  fn si = fn sj → fn si ≠ NULL → i = j.
Proof.
  unfold live_fns, fns. rewrite NoDup_live_alt. intros H Hi Hj Heq Hlive.
  apply (H i j (fn si)); [| |done].
  - by rewrite list_lookup_fmap, Hi.
  - by rewrite list_lookup_fmap, Hj, Heq.
Qed.

(** Storing [f] in slot [k] keeps the live pointers distinct when [f] is
    NULL or is held by no other slot. *)
Lemma NoDup_live_insert (l : list picolog_function_t) k f :
  NoDup (filter (λ f, f ≠ NULL) l) →
  f = NULL ∨ (∀ i, l !! i = Some f → i = k) →
  NoDup (filter (λ f, f ≠ NULL) (<[k := f]> l)).
Proof.
  rewrite !NoDup_live_alt. intros H Hf i j g Hi Hj Hg.
  apply list_lookup_insert_Some in Hi as [(-> & -> & _)|[Hik Hi]];
    apply list_lookup_insert_Some in Hj as [(-> & Hfg & _)|[Hjk Hj]].
  - done.
  - destruct Hf as [->|Hf]; [done|]. symmetry. by apply Hf.
  - subst g. destruct Hf as [->|Hf]; [done|]. by apply Hf.
  - by eapply H.
Qed.

Lemma fns_insert (tbl : list subscriber_t) k s :
  fns (<[k := s]> tbl) = <[k := fn s]> (fns tbl).
Proof. unfold fns. by rewrite list_fmap_insert. Qed.

Lemma fns_lookup (tbl : list subscriber_t) i :
  fns tbl !! i = fn <$> tbl !! i.
Proof. unfold fns. by rewrite list_lookup_fmap. Qed.

Lemma elem_of_fns (tbl : list subscriber_t) f :
  f ∈ fns tbl ↔ ∃ i s, tbl !! i = Some s ∧ fn s = f.
Proof.
  unfold fns. rewrite list_elem_of_fmap. split.
  - intros (s & -> & Hin). apply list_elem_of_lookup_1 in Hin as [i Hi]. eauto.
  - intros (i & s & Hi & <-). exists s. split; [done|].
    by eapply list_elem_of_lookup_2.
Qed.

(** Rewriting only the threshold of a slot leaves the pointers alone. *)
Lemma fns_insert_same (tbl : list subscriber_t) j s t :
  tbl !! j = Some s →
  fns (<[j := {| fn := fn s; threshold := t |}]> tbl) = fns tbl.
Proof.
  intros Hj. rewrite fns_insert. cbn. apply list_insert_id.
  by rewrite fns_lookup, Hj.
Qed.

Lemma live_fns_memset : live_fns memset_subscribers = [].
Proof.
  unfold live_fns, fns, memset_subscribers.
  generalize PICOLOG_MAX_SUBSCRIBERS as n.
  induction n as [|n IH]; [done|].
  rewrite replicate_S, fmap_cons, filter_cons.
  by rewrite decide_False by (by intros []).
Qed.

Lemma registry_inv_memset : registry_inv memset_subscribers.
Proof.
  split.
  - unfold memset_subscribers. by rewrite length_replicate.
  - rewrite live_fns_memset. constructor.
Qed.

Lemma list_find_fn_Some f (tbl : list subscriber_t) j s :
  list_find (λ s, fn s = f) tbl = Some (j, s) →
  tbl !! j = Some s ∧ fn s = f ∧
  ∀ i s', tbl !! i = Some s' → (i < j)%nat → fn s' ≠ f.
Proof. by rewrite list_find_Some. Qed.

Lemma list_find_fn_None f (tbl : list subscriber_t) :
  list_find (λ s, fn s = f) tbl = None ↔ f ∉ fns tbl.
Proof.
  rewrite list_find_None, Forall_forall, elem_of_fns. split.
  - intros H (i & s & Hi & Hs). eapply H; [|done].
    by eapply list_elem_of_lookup_2.
  - intros H s Hin Hs. apply H.
    apply list_elem_of_lookup_1 in Hin as [i Hi]. eauto.
Qed.

Lemma picolog_subscribe_inv f t (tbl : list subscriber_t) :
  registry_inv tbl → registry_inv (snd (picolog_subscribe f t tbl)).
Proof.
  intros [Hlen Hnd]. rewrite picolog_subscribe_spec by done.
  destruct (list_find _ tbl) as [[j s]|] eqn:Hfind.
  - apply list_find_fn_Some in Hfind as (Hj & _ & _). split; cbn.
    + by rewrite length_insert.
    + unfold live_fns. by rewrite fns_insert_same.
  - apply list_find_fn_None in Hfind.
    destruct (last_free tbl) as [k|]; [|done]. split; cbn.
    + by rewrite length_insert.
    + unfold live_fns. rewrite fns_insert. apply NoDup_live_insert; [done|].
      right. intros i Hi. destruct Hfind. by eapply list_elem_of_lookup_2.
Qed.

Lemma picolog_unsubscribe_inv f (tbl : list subscriber_t) :
  registry_inv tbl → registry_inv (snd (picolog_unsubscribe f tbl)).
Proof.
  intros [Hlen Hnd]. rewrite picolog_unsubscribe_spec by done.
  destruct (list_find _ tbl) as [[j s]|]; [|done]. split; cbn.
  - by rewrite length_insert.
  - unfold live_fns. rewrite fns_insert. apply NoDup_live_insert; auto.
Qed.

Lemma picolog_init_inv t (tbl : list subscriber_t) :
  registry_inv (snd (picolog_init t tbl)).
Proof. apply picolog_subscribe_inv, registry_inv_memset. Qed.

Lemma run_op_inv op (tbl : list subscriber_t) :
  registry_inv tbl → registry_inv (run_op tbl op).
Proof.
  destruct op; cbn [run_op]; intros H.
  - apply picolog_init_inv.
  - by apply picolog_subscribe_inv.
  - by apply picolog_unsubscribe_inv.
Qed.

Lemma run_ops_inv ops (tbl : list subscriber_t) :
  registry_inv tbl → registry_inv (run_ops ops tbl).
Proof.
  unfold run_ops. revert tbl.
  induction ops as [|op ops IH]; intros tbl H; [done|].
  cbn. by apply IH, run_op_inv.
Qed.

(** ** Filters of a table with one slot rewritten *)

Section Filter.

Context {A : Type} (P : A → Prop) `{∀ x, Decision (P x)}.

Lemma filter_insert_split (l : list A) j x y :
  l !! j = Some x →
  filter P l = filter P (take j l) ++ filter P [x] ++ filter P (drop (S j) l) ∧
  filter P (<[j := y]> l) =
    filter P (take j l) ++ filter P [y] ++ filter P (drop (S j) l).
Proof.
  intros Hj. split.
  - rewrite <- !filter_app. cbn. by rewrite take_drop_middle.
  - rewrite insert_take_drop by (by eapply lookup_lt_Some).
    change (y :: drop (S j) l) with ([y] ++ drop (S j) l).
    by rewrite !filter_app.
Qed.

(** Rewriting a slot that the filter rejects before and after. *)
Lemma filter_insert_out (l : list A) j x y :
  l !! j = Some x → ¬ P x → ¬ P y → filter P (<[j := y]> l) = filter P l.
Proof.
  intros Hj Hx Hy.
  destruct (filter_insert_split l j x y Hj) as [-> ->].
  rewrite !filter_cons, !filter_nil.
  by rewrite !decide_False by done.
Qed.

Lemma filter_none (l : list A) : (∀ x, x ∈ l → ¬ P x) → filter P l = [].
Proof.
  induction l as [|a l IH]; intros Hl; [done|].
  rewrite filter_cons_False by (apply Hl; left).
  apply IH. intros x Hx. apply Hl. by right.
Qed.

(** The filter of a list in which one position alone is accepted. *)
Lemma filter_unique (l : list A) j x :
  l !! j = Some x → P x →
  (∀ i y, l !! i = Some y → P y → i = j) →
  filter P l = [x].
Proof.
  revert j. induction l as [|a l IH]; intros j Hj Hx Huniq; [done|].
  rewrite filter_cons. destruct j as [|j]; simplify_eq/=.
  - rewrite decide_True by done. f_equal.
    apply filter_none. intros y Hin Hy.
    apply list_elem_of_lookup_1 in Hin as [i Hi].
    by specialize (Huniq (S i) y Hi Hy).
  - rewrite decide_False.
    + apply (IH j); [done..|]. intros i y Hi Hy.
      by specialize (Huniq (S i) y Hi Hy) as [= ->].
    + intros Ha. by specialize (Huniq 0%nat a eq_refl Ha).
Qed.

End Filter.

(** ** Entries, calls and C strings *)

Lemma entries_of_unique (tbl : list subscriber_t) j s :
  NoDup (live_fns tbl) → tbl !! j = Some s → fn s ≠ NULL →
  entries_of (fn s) tbl = [s].
Proof.
  intros Hnd Hj Hlive. unfold entries_of.
  apply (filter_unique _ _ j); [done..|].
  intros i s' Hi Heq. apply (registry_unique tbl i j s' s); try done.
  by rewrite Heq.
Qed.

(** The calls that a delivery pass makes to [f] are the entries of [f]
    that are live and admit the severity. *)
Lemma calls_to_for_each_matching f severity msg (tbl : list subscriber_t) :
  calls_to f (for_each_matching severity msg tbl) =
  length (filter (λ s, fn s ≠ NULL ∧ threshold s <= severity)
            (entries_of f tbl)).
Proof.
  unfold calls_to, for_each_matching, entries_of.
  induction tbl as [|s tbl IH]; [done|].
  rewrite !(filter_cons _ s).
  destruct (decide (fn s ≠ NULL ∧ threshold s <= severity)) as [Hm|Hm];
    destruct (decide (fn s = f)) as [Hf|Hf].
  - rewrite fmap_cons.
    rewrite filter_cons_True by (by apply bool_decide_pack).
    rewrite (filter_cons_True _ s) by done. cbn. by rewrite IH.
  - rewrite fmap_cons.
    by rewrite filter_cons_False by (by intros ?%bool_decide_unpack).
  - by rewrite filter_cons_False by done.
  - done.
Qed.

Lemma for_each_matching_no_format severity msg (tbl : list subscriber_t) :
  formats (for_each_matching severity msg tbl) = 0%nat.
Proof.
  unfold formats, for_each_matching.
  induction (filter _ tbl) as [|s l IH]; [done|].
  rewrite fmap_cons. by rewrite filter_cons_False by (by intros []).
Qed.

Lemma elem_of_for_each_matching f severity severity' msg msg'
    (tbl : list subscriber_t) :
  Ev_call f severity' msg' ∈ for_each_matching severity msg tbl ↔
  severity' = severity ∧ msg' = msg ∧
  ∃ s, s ∈ tbl ∧ fn s = f ∧ f ≠ NULL ∧ threshold s <= severity.
Proof.
  unfold for_each_matching. rewrite list_elem_of_fmap. split.
  - intros (s & [= -> -> ->] & Hin).
    apply list_elem_of_filter in Hin as [[? ?] ?]. naive_solver.
  - intros (-> & -> & s & Hin & <- & ? & ?). exists s. split; [done|].
    by apply list_elem_of_filter.
Qed.

Lemma c_string_app_NUL (l r : list byte) :
  c_string (l ++ NUL :: r) = c_string l.
Proof.
  induction l as [|c l IH]; cbn.
  - by rewrite decide_True.
  - destruct (decide (c = NUL)); [done|]. by rewrite IH.
Qed.

Lemma c_string_length (l : list byte) :
  (length (c_string l) ≤ length l)%nat.
Proof.
  induction l as [|c l IH]; cbn; [done|].
  destruct (decide (c = NUL)); cbn; lia.
Qed.

Lemma c_string_terminated (l r : list byte) :
  (l ++ NUL :: r) !! length (c_string l) = Some NUL.
Proof.
  induction l as [|c l IH]; cbn; [done|].
  destruct (decide (c = NUL)) as [->|]; [done|]. done.
Qed.

Lemma c_string_id (l : list byte) : NUL ∉ l → c_string l = l.
Proof.
  induction l as [|c l IH]; cbn; [done|].
  rewrite not_elem_of_cons. intros [Hc Hl].
  rewrite decide_False by done. by rewrite IH.
Qed.

(** [vsnprintf] into a buffer of [n > 0] characters with the bound [n]. *)
Lemma vsnprintf_fits (buf : list byte) n (out : list byte) :
  (0 < n)%nat → length buf = n →
  ∃ buf', vsnprintf buf n out = Some buf' ∧
          length buf' = n ∧
          c_string buf' = c_string (take (n - 1) out) ∧
          (length (c_string buf') < n)%nat ∧
          buf' !! length (c_string buf') = Some NUL.
Proof.
  intros Hpos Hlen. destruct n as [|m]; [lia|]. unfold vsnprintf.
  replace (S m - 1)%nat with m by lia.
  assert (length (take m out) ≤ m)%nat as Htake
    by (rewrite length_take; lia).
  rewrite decide_True by (rewrite length_app; cbn; lia).
  eexists. split; [done|].
  rewrite <- app_assoc. cbn [app].
  rewrite c_string_app_NUL. split_and!.
  - rewrite length_app, length_take. cbn [length].
    rewrite length_drop, length_app, length_take. cbn [length]. lia.
  - done.
  - pose proof (c_string_length (take m out)). lia.
  - apply c_string_terminated.
Qed.

(** ** The registry *)

Lemma last_free_None (tbl : list subscriber_t) :
  last_free tbl = None ↔ NULL ∉ fns tbl.
Proof.
  unfold last_free. rewrite last_free_from_None, Forall_forall, elem_of_fns.
  split.
  - intros H (i & s & Hi & Hs). eapply H; [|done].
    by eapply list_elem_of_lookup_2.
  - intros H s Hin Hs. apply H.
    apply list_elem_of_lookup_1 in Hin as [i Hi]. eauto.
Qed.

Lemma last_free_Some (tbl : list subscriber_t) k :
  last_free tbl = Some k →
  ∃ s, tbl !! k = Some s ∧ fn s = NULL ∧
       ∀ k' s', (k < k')%nat → tbl !! k' = Some s' → fn s' ≠ NULL.
Proof.
  intros H. apply last_free_from_Some in H as (j & s & -> & ? & ? & ?).
  eauto.
Qed.

(** The live pointers are the pointers of the live slots. *)
Lemma live_fns_live (tbl : list subscriber_t) :
  live_fns tbl = fn <$> live tbl.
Proof.
  unfold live_fns, fns, live. induction tbl as [|s tbl IH]; [done|].
  rewrite fmap_cons, !filter_cons.
  destruct (decide (fn s ≠ NULL)); [rewrite fmap_cons|]; by rewrite IH.
Qed.

(** A slot whose pointer is NULL is not changed by storing NULL in it. *)
Lemma clear_free_slot (tbl : list subscriber_t) j s :
  tbl !! j = Some s → fn s = NULL →
  <[j := {| fn := NULL; threshold := threshold s |}]> tbl = tbl.
Proof.
  intros Hj Hs. apply list_insert_id. rewrite Hj. f_equal.
  destruct s as [f t]. cbn in *. by subst.
Qed.

(** A callback that no slot holds goes to the free slot that the scan
    meets last. *)
Lemma subscribe_new_slot f t (tbl : list subscriber_t) :
  length tbl = PICOLOG_MAX_SUBSCRIBERS →
  f ∉ fns tbl → NULL ∈ fns tbl →
  ∃ k s, tbl !! k = Some s ∧ fn s = NULL ∧
         picolog_subscribe f t tbl =
           (PICOLOG_ERR_NONE,
            <[k := {| fn := f; threshold := t |}]> tbl).
Proof.
  intros Hlen Hnew Hfree. rewrite picolog_subscribe_spec by done.
  apply list_find_fn_None in Hnew as ->.
  destruct (last_free tbl) as [k|] eqn:Hlast.
  - destruct (last_free_Some _ _ Hlast) as (s & Hk & Hs & _).
    by exists k, s.
  - by apply last_free_None in Hlast.
Qed.

(** C3: when every slot of the table is occupied and none of them holds
    the callback passed to subscribe, subscribe returns
    SubscribersExceeded and the table, hence every (callback, threshold)
    entry, is unchanged. *)
Theorem subscribe_full_table_exceeded f t (tbl : list subscriber_t) :
  length tbl = PICOLOG_MAX_SUBSCRIBERS →
  (∀ s, s ∈ tbl → fn s ≠ NULL ∧ fn s ≠ f) →
  picolog_subscribe f t tbl = (PICOLOG_ERR_SUBSCRIBERS_EXCEEDED, tbl).
Proof.
  intros Hlen Hfull. rewrite picolog_subscribe_spec by done.
  assert (list_find (λ s, fn s = f) tbl = None) as ->.
  { apply list_find_None, Forall_forall. intros s Hin. by apply Hfull. }
  assert (last_free tbl = None) as ->; [|done].
  apply last_free_from_None, Forall_forall. intros s Hin. by apply Hfull.
Qed.

(** C4, as the code has it: when subscribe is called with a callback
    that no slot holds and at least one slot is free, it stores the
    (callback, threshold) pair in the free slot that its ascending scan
    meets last, the free slot of highest index, and returns success. *)
Theorem subscribe_new_takes_last_free f t (tbl : list subscriber_t) :
  length tbl = PICOLOG_MAX_SUBSCRIBERS →
  f ∉ fns tbl → NULL ∈ fns tbl →
  ∃ k s, last_free tbl = Some k ∧
         tbl !! k = Some s ∧ fn s = NULL ∧
         (∀ k' s', (k < k')%nat → tbl !! k' = Some s' → fn s' ≠ NULL) ∧
         picolog_subscribe f t tbl =
           (PICOLOG_ERR_NONE,
            <[k := {| fn := f; threshold := t |}]> tbl).
Proof.
  intros Hlen Hnew Hfree. rewrite picolog_subscribe_spec by done.
  apply list_find_fn_None in Hnew as ->.
  destruct (last_free tbl) as [k|] eqn:Hlast.
  - destruct (last_free_Some _ _ Hlast) as (s & Hk & Hs & Hafter).
    by exists k, s.
  - by apply last_free_None in Hlast.
Qed.

(** C5: for every callback f, if f occupies a slot then unsubscribe(f)
    returns success and clears that slot, the first one that holds f:
    its pointer becomes NULL, which marks it free, the other slots are
    untouched, and in a registry that satisfies its invariant a callback
    f other than NULL then occupies no slot at all; if f occupies no
    slot, unsubscribe(f) returns NotSubscribed and the table is
    unchanged. *)
Theorem unsubscribe_clears_or_reports f (tbl : list subscriber_t) :
  length tbl = PICOLOG_MAX_SUBSCRIBERS →
  (f ∈ fns tbl →
     ∃ j s, tbl !! j = Some s ∧ fn s = f ∧
            picolog_unsubscribe f tbl =
              (PICOLOG_ERR_NONE,
               <[j := {| fn := NULL; threshold := threshold s |}]> tbl) ∧
            fns (snd (picolog_unsubscribe f tbl)) !! j = Some NULL ∧
            (∀ i, i ≠ j →
               snd (picolog_unsubscribe f tbl) !! i = tbl !! i) ∧
            (registry_inv tbl → f ≠ NULL →
               f ∉ fns (snd (picolog_unsubscribe f tbl)))) ∧
  (f ∉ fns tbl →
     picolog_unsubscribe f tbl = (PICOLOG_ERR_NOT_SUBSCRIBED, tbl)).
Proof.
  intros Hlen. rewrite picolog_unsubscribe_spec by done. split.
  - intros Hin. destruct (list_find _ tbl) as [[j s]|] eqn:Hfind.
    + apply list_find_fn_Some in Hfind as (Hj & Hs & _).
      exists j, s. cbn [snd]. split_and!; try done.
      * rewrite fns_insert. apply list_lookup_insert_eq.
        unfold fns. rewrite length_fmap. by eapply lookup_lt_Some.
      * intros i Hij. by apply list_lookup_insert_ne.
      * intros [_ Hnd] Hf. rewrite elem_of_fns. intros (i & s' & Hi & Hs').
        apply list_lookup_insert_Some in Hi as [(_ & <- & _)|[Hij Hi]].
        -- cbn in Hs'. congruence.
        -- destruct Hij. apply (registry_unique tbl j i s s'); try done;
             congruence.
    + by apply list_find_fn_None in Hfind.
  - intros Hnotin. by apply list_find_fn_None in Hnotin as ->.
Qed.

(** C9: every sequence of init, subscribe and unsubscribe operations
    preserves the registry invariant: the table keeps its N slots, so at
    most N subscribers are live, no two live slots hold the same
    callback, and a slot is free exactly when it is not one of the live
    ones (its pointer is NULL). *)
Theorem registry_invariant_preserved ops (tbl : list subscriber_t) :
  registry_inv tbl →
  registry_inv (run_ops ops tbl) ∧
  length (run_ops ops tbl) = PICOLOG_MAX_SUBSCRIBERS ∧
  (length (live (run_ops ops tbl)) ≤ PICOLOG_MAX_SUBSCRIBERS)%nat ∧
  NoDup (fn <$> live (run_ops ops tbl)) ∧
  (∀ s, s ∈ run_ops ops tbl → fn s = NULL ↔ s ∉ live (run_ops ops tbl)).
Proof.
  intros Hinv. pose proof (run_ops_inv ops tbl Hinv) as [Hlen Hnd].
  split_and!; try done.
  - rewrite <- Hlen. apply length_filter.
  - by rewrite <- live_fns_live.
  - intros s Hin. unfold live. rewrite list_elem_of_filter.
    split.
    + by intros Hs [Hlive _].
    + intros Hnot. destruct (decide (fn s = NULL)) as [|Hlive]; [done|].
      by destruct Hnot.
Qed.

(** ** The dispatcher *)

(** A message into a buffer of the declared size, over a table of the
    declared size: the call returns, with the trace of the specification. *)
Lemma picolog_message_total severity fmt ap (tbl : list subscriber_t)
    (buf : list byte) :
  length tbl = PICOLOG_MAX_SUBSCRIBERS → buffer_inv buf →
  ∃ buf',
    vsnprintf buf PICOLOG_MAX_MESSAGE_LENGTH (printf_expand fmt ap)
      = Some buf' ∧
    picolog_message severity fmt ap tbl buf =
      Some (buf', Ev_vsnprintf PICOLOG_MAX_MESSAGE_LENGTH fmt ap ::
                    for_each_matching severity buf' tbl) ∧
    buffer_inv buf' ∧
    c_string buf' =
      c_string (take (PICOLOG_MAX_MESSAGE_LENGTH - 1) (printf_expand fmt ap)) ∧
    (length (c_string buf') < PICOLOG_MAX_MESSAGE_LENGTH)%nat ∧
    buf' !! length (c_string buf') = Some NUL.
Proof.
  intros Hlen Hbuf.
  destruct (vsnprintf_fits buf PICOLOG_MAX_MESSAGE_LENGTH
              (printf_expand fmt ap) max_message_length_pos Hbuf)
    as (buf' & Hv & ? & ? & ? & ?).
  exists buf'. rewrite picolog_message_spec, Hv by done. by split_and!.
Qed.

Lemma calls_to_cons_format f n fmt ap (tr : list event) :
  calls_to f (Ev_vsnprintf n fmt ap :: tr) = calls_to f tr.
Proof. unfold calls_to. by rewrite filter_cons_False by (by intros []). Qed.

(** C1: for every severity and every live subscriber, whatever its
    threshold, a call to picolog_message with that severity calls the
    subscriber's callback, once and with that severity, if the severity
    is at least the threshold, and does not call it otherwise; severity
    and threshold range over all values of the level type, the
    enumerators TRACE to ALWAYS among them. *)
Theorem message_invokes_iff_threshold severity fmt ap (tbl : list subscriber_t)
    (buf : list byte) i s :
  registry_inv tbl → buffer_inv buf →
  tbl !! i = Some s → fn s ≠ NULL →
  ∃ buf' tr,
    picolog_message severity fmt ap tbl buf = Some (buf', tr) ∧
    (Ev_call (fn s) severity buf' ∈ tr ↔ severity >= threshold s) ∧
    ((∃ severity' msg, Ev_call (fn s) severity' msg ∈ tr) ↔ severity >= threshold s) ∧
    calls_to (fn s) tr = if decide (severity >= threshold s) then 1%nat else 0%nat.
Proof.
  intros [Hlen Hnd] Hbuf Hi Hlive.
  destruct (picolog_message_total severity fmt ap tbl buf Hlen Hbuf)
    as (buf' & _ & Hm & _).
  exists buf', (Ev_vsnprintf PICOLOG_MAX_MESSAGE_LENGTH fmt ap ::
                  for_each_matching severity buf' tbl).
  split; [done|].
  assert (∀ severity' msg,
    Ev_call (fn s) severity' msg ∈
      Ev_vsnprintf PICOLOG_MAX_MESSAGE_LENGTH fmt ap ::
        for_each_matching severity buf' tbl →
    severity >= threshold s) as Honly.
  { intros severity' msg Hin. apply elem_of_cons in Hin as [|Hin]; [done|].
    apply elem_of_for_each_matching in Hin
      as (_ & _ & s' & Hin & Heq & _ & Hle).
    apply list_elem_of_lookup_1 in Hin as [j Hj].
    assert (j = i) as ->
      by (apply (registry_unique tbl j i s' s); try done; congruence).
    simplify_eq. lia. }
  assert (severity >= threshold s →
    Ev_call (fn s) severity buf' ∈
      Ev_vsnprintf PICOLOG_MAX_MESSAGE_LENGTH fmt ap ::
        for_each_matching severity buf' tbl) as Hcalled.
  { intros Hge. right. apply elem_of_for_each_matching.
    split_and!; try done. exists s. split_and!; try done; [|lia].
    by eapply list_elem_of_lookup_2. }
  split_and!.
  - split; [apply Honly|apply Hcalled].
  - split; [intros (severity' & msg & Hin); by eapply Honly|eauto].
  - rewrite calls_to_cons_format, calls_to_for_each_matching.
    rewrite (entries_of_unique tbl i s) by done.
    rewrite filter_cons, filter_nil.
    destruct (decide (severity >= threshold s)).
    + by rewrite decide_True by (split; [done|lia]).
    + by rewrite decide_False by (intros [_ ?]; lia).
Qed.

(** C6: for every call to picolog_message, the format and its arguments
    are expanded by one vsnprintf call into the message buffer, before
    any delivery, and after it the live slots whose threshold admits the
    severity are called in slot order, each once, all with the severity
    and with the contents of the buffer that this one expansion left;
    the calls are made by picolog_message itself, before it returns. *)
Theorem message_formats_once_delivers_in_order severity fmt ap
    (tbl : list subscriber_t) (buf : list byte) :
  registry_inv tbl → buffer_inv buf →
  ∃ buf' tr,
    picolog_message severity fmt ap tbl buf = Some (buf', tr) ∧
    vsnprintf buf PICOLOG_MAX_MESSAGE_LENGTH (printf_expand fmt ap)
      = Some buf' ∧
    tr = Ev_vsnprintf PICOLOG_MAX_MESSAGE_LENGTH fmt ap ::
           ((λ s, Ev_call (fn s) severity buf') <$>
              filter (λ s, fn s ≠ NULL ∧ threshold s <= severity) tbl) ∧
    formats tr = 1%nat ∧
    (∀ s, s ∈ tbl → fn s ≠ NULL → threshold s <= severity →
          calls_to (fn s) tr = 1%nat) ∧
    (∀ f, f ∉ fn <$> filter (λ s, fn s ≠ NULL ∧ threshold s <= severity) tbl →
          calls_to f tr = 0%nat).
Proof.
  intros [Hlen Hnd] Hbuf.
  destruct (picolog_message_total severity fmt ap tbl buf Hlen Hbuf)
    as (buf' & Hv & Hm & _).
  exists buf', (Ev_vsnprintf PICOLOG_MAX_MESSAGE_LENGTH fmt ap ::
                  for_each_matching severity buf' tbl).
  split_and!; try done.
  - unfold formats. rewrite filter_cons_True by done. cbn.
    f_equal. apply for_each_matching_no_format.
  - intros s Hin Hlive Hle.
    apply list_elem_of_lookup_1 in Hin as [i Hi].
    rewrite calls_to_cons_format, calls_to_for_each_matching.
    rewrite (entries_of_unique tbl i s) by done.
    by rewrite filter_cons_True.
  - intros f Hf. rewrite calls_to_cons_format, calls_to_for_each_matching.
    rewrite filter_none; [done|]. intros s Hin Hm'. apply Hf.
    unfold entries_of in Hin. apply list_elem_of_filter in Hin as [<- Hin].
    apply list_elem_of_fmap. exists s. split; [done|].
    by apply list_elem_of_filter.
Qed.

(** C7: for every call to picolog_message, whatever the length of the
    expansion of the format and its arguments, the call returns without
    an out-of-bounds store; the buffer keeps its capacity
    (PICOLOG_MAX_MESSAGE_LENGTH, 120 in the header); it holds a null
    character at an index below the capacity, so the text it holds is
    shorter than the capacity; that text is the text of the first
    capacity-1 characters of the expansion, the whole expansion when it
    is short enough and has no null character of its own; and this
    buffer is what every subscriber called is handed. *)
Theorem message_text_bounded_and_terminated severity fmt ap
    (tbl : list subscriber_t) (buf : list byte) :
  length tbl = PICOLOG_MAX_SUBSCRIBERS → buffer_inv buf →
  ∃ buf' tr,
    picolog_message severity fmt ap tbl buf = Some (buf', tr) ∧
    length buf' = PICOLOG_MAX_MESSAGE_LENGTH ∧
    (length (c_string buf') < PICOLOG_MAX_MESSAGE_LENGTH)%nat ∧
    buf' !! length (c_string buf') = Some NUL ∧
    c_string buf' =
      c_string (take (PICOLOG_MAX_MESSAGE_LENGTH - 1) (printf_expand fmt ap)) ∧
    (NUL ∉ printf_expand fmt ap →
     (length (printf_expand fmt ap) < PICOLOG_MAX_MESSAGE_LENGTH)%nat →
     c_string buf' = printf_expand fmt ap) ∧
    (∀ f severity' msg, Ev_call f severity' msg ∈ tr → msg = buf').
Proof.
  intros Hlen Hbuf.
  destruct (picolog_message_total severity fmt ap tbl buf Hlen Hbuf)
    as (buf' & _ & Hm & Hbuf' & Htext & Hshort & Hnul).
  exists buf', (Ev_vsnprintf PICOLOG_MAX_MESSAGE_LENGTH fmt ap ::
                  for_each_matching severity buf' tbl).
  split_and!; try done.
  - intros Hnonul Hfit. rewrite Htext, take_ge by lia. by apply c_string_id.
  - intros f severity' msg Hin. apply elem_of_cons in Hin as [|Hin]; [done|].
    by apply elem_of_for_each_matching in Hin as (_ & -> & _).
Qed.

(** ** NULL as a callback, initialisation, repeated subscription *)

Lemma live_memset : live memset_subscribers = [].
Proof.
  pose proof live_fns_memset as H. rewrite live_fns_live in H.
  by apply fmap_nil_inv in H.
Qed.

(** C10: NULL is both a possible argument and the mark of a free slot.
    While some slot is free, subscribe(NULL, t) returns success and
    leaves the pointers of all slots, the live subscribers and every
    later delivery as they were, no message ever calling NULL, and
    unsubscribe(NULL) returns success and leaves the table as it was;
    when every slot is occupied, subscribe(NULL, t) returns
    SubscribersExceeded and unsubscribe(NULL) returns NotSubscribed, the
    table again unchanged. *)
Theorem null_callback_is_free_marker t (tbl : list subscriber_t) :
  length tbl = PICOLOG_MAX_SUBSCRIBERS →
  (NULL ∈ fns tbl →
     fst (picolog_subscribe NULL t tbl) = PICOLOG_ERR_NONE ∧
     fns (snd (picolog_subscribe NULL t tbl)) = fns tbl ∧
     live (snd (picolog_subscribe NULL t tbl)) = live tbl ∧
     (∀ severity fmt ap buf, buffer_inv buf →
        ∃ buf' tr,
          picolog_message severity fmt ap
            (snd (picolog_subscribe NULL t tbl)) buf = Some (buf', tr) ∧
          picolog_message severity fmt ap tbl buf = Some (buf', tr) ∧
          calls_to NULL tr = 0%nat) ∧
     picolog_unsubscribe NULL tbl = (PICOLOG_ERR_NONE, tbl) ∧
     live (snd (picolog_unsubscribe NULL tbl)) = live tbl) ∧
  (NULL ∉ fns tbl →
     picolog_subscribe NULL t tbl =
       (PICOLOG_ERR_SUBSCRIBERS_EXCEEDED, tbl) ∧
     picolog_unsubscribe NULL tbl = (PICOLOG_ERR_NOT_SUBSCRIBED, tbl)).
Proof.
  intros Hlen.
  rewrite picolog_subscribe_spec, picolog_unsubscribe_spec by done. split.
  - intros Hfree. destruct (list_find _ tbl) as [[j s]|] eqn:Hfind;
      [|by apply list_find_fn_None in Hfind].
    apply list_find_fn_Some in Hfind as (Hj & Hs & _). cbn [fst snd].
    rewrite (clear_free_slot tbl j s) by done.
    assert (length (<[j := {| fn := fn s; threshold := t |}]> tbl)
            = PICOLOG_MAX_SUBSCRIBERS) as Hlen' by (by rewrite length_insert).
    split_and!; try done.
    + by apply fns_insert_same.
    + unfold live. apply (filter_insert_out _ _ _ s); [done|..]; cbn; tauto.
    + intros severity fmt ap buf Hbuf.
      destruct (picolog_message_total severity fmt ap tbl buf Hlen Hbuf)
        as (buf' & Hv & Hm & _).
      exists buf', (Ev_vsnprintf PICOLOG_MAX_MESSAGE_LENGTH fmt ap ::
                      for_each_matching severity buf' tbl).
      split_and!; [|done|].
      * rewrite picolog_message_spec, Hv by done. cbn. do 3 f_equal.
        unfold for_each_matching. f_equal.
        apply (filter_insert_out _ _ _ s); [done|..]; cbn; tauto.
      * rewrite calls_to_cons_format, calls_to_for_each_matching.
        rewrite filter_none; [done|]. intros s' Hin [Hlive _].
        unfold entries_of in Hin. by apply list_elem_of_filter in Hin as [? _].
  - intros Hfull. apply list_find_fn_None in Hfull as Hfind. rewrite Hfind.
    by apply last_free_None in Hfull as ->.
Qed.

(** The table that [picolog_init] leaves: all slots zeroed, then
    [picolog_format] with the threshold in the last free slot. *)
Lemma picolog_init_table t (tbl : list subscriber_t) :
  ∃ k s, memset_subscribers !! k = Some s ∧
         picolog_subscribe picolog_format t memset_subscribers =
           (PICOLOG_ERR_NONE,
            <[k := {| fn := picolog_format; threshold := t |}]>
              memset_subscribers).
Proof.
  pose proof registry_inv_memset as [Hlen _].
  rewrite picolog_subscribe_spec by done.
  assert (∀ s, s ∈ memset_subscribers → s = zero_subscriber) as Hzero
    by (intros s; apply elem_of_replicate_inv).
  assert (list_find (λ s, fn s = picolog_format) memset_subscribers = None)
    as ->.
  { apply list_find_None, Forall_forall. intros s Hs.
    by rewrite (Hzero s Hs). }
  destruct (last_free memset_subscribers) as [k|] eqn:Hlast.
  - destruct (last_free_Some _ _ Hlast) as (s & Hk & _). eauto.
  - apply last_free_None in Hlast. destruct Hlast.
    apply elem_of_fns. exists 0%nat, zero_subscriber. split; [|done].
    unfold memset_subscribers. apply lookup_replicate_2.
    apply max_subscribers_pos.
Qed.

Lemma picolog_init_live t (tbl : list subscriber_t) :
  live (snd (picolog_init t tbl)) =
    [{| fn := picolog_format; threshold := t |}].
Proof.
  unfold picolog_init. cbn [snd].
  destruct (picolog_init_table t tbl) as (k & s & Hk & ->). cbn [snd].
  unfold live.
  destruct (filter_insert_split (λ s, fn s ≠ NULL) memset_subscribers k s
              {| fn := picolog_format; threshold := t |} Hk) as [Hold ->].
  fold (live memset_subscribers) in Hold. rewrite live_memset in Hold.
  symmetry in Hold. apply app_eq_nil in Hold as [-> Hold].
  apply app_eq_nil in Hold as [_ ->].
  by rewrite filter_cons_True.
Qed.

(** C8: for every threshold t, picolog_init(t) zeroes the table, which
    leaves no live slot, and then subscribes picolog_format, the default
    console formatter, at threshold t, which succeeds; the registry then
    holds exactly that one subscriber.  So, whatever the table held
    before the call, a message emitted after it reaches no callback
    other than picolog_format, at any severity, and reaches
    picolog_format once when the severity is at least t and not at all
    otherwise. *)
Theorem init_resets_then_subscribes t (tbl : list subscriber_t) :
  live memset_subscribers = [] ∧
  picolog_subscribe picolog_format t memset_subscribers =
    (PICOLOG_ERR_NONE, snd (picolog_init t tbl)) ∧
  registry_inv (snd (picolog_init t tbl)) ∧
  live (snd (picolog_init t tbl)) =
    [{| fn := picolog_format; threshold := t |}] ∧
  (∀ severity fmt ap buf,
     buffer_inv buf →
     ∃ buf' tr,
       picolog_message severity fmt ap (snd (picolog_init t tbl)) buf
         = Some (buf', tr) ∧
       (∀ f, f ≠ picolog_format → calls_to f tr = 0%nat) ∧
       calls_to picolog_format tr =
         if decide (severity >= t) then 1%nat else 0%nat).
Proof.
  split_and!.
  - apply live_memset.
  - unfold picolog_init. cbn [snd].
    by destruct (picolog_init_table t tbl) as (k & s & _ & ->).
  - apply picolog_init_inv.
  - apply picolog_init_live.
  - intros severity fmt ap buf Hbuf.
    pose proof (picolog_init_inv t tbl) as [Hlen Hnd].
    pose proof (picolog_init_live t tbl) as Hlive.
    destruct (picolog_message_total severity fmt ap _ buf Hlen Hbuf)
      as (buf' & _ & Hm & _).
    eexists _, _. split_and!; [exact Hm| |].
    + intros f Hf.
      rewrite calls_to_cons_format, calls_to_for_each_matching.
      rewrite filter_none; [done|]. intros s Hin [Hs' _].
      unfold entries_of in Hin. apply list_elem_of_filter in Hin as [Hs Hin].
      assert (s ∈ live (snd (picolog_init t tbl))) as Hin'
        by (by apply list_elem_of_filter).
      rewrite Hlive in Hin'. apply list_elem_of_singleton in Hin'.
      subst s. by cbn in Hs.
    + assert ({| fn := picolog_format; threshold := t |}
                ∈ live (snd (picolog_init t tbl))) as Hin
        by (rewrite Hlive; apply list_elem_of_singleton; done).
      apply list_elem_of_filter in Hin as [_ Hin].
      apply list_elem_of_lookup_1 in Hin as [i Hi].
      rewrite calls_to_cons_format, calls_to_for_each_matching.
      rewrite (entries_of_unique _ i {| fn := picolog_format; threshold := t |})
        by done.
      rewrite filter_cons, filter_nil. cbn [fn threshold].
      destruct (decide (severity >= t)).
      * by rewrite decide_True by (split; [done|lia]).
      * by rewrite decide_False by (intros [_ ?]; lia).
Qed.

(** Subscribing a callback that slot [j] already holds rewrites the
    threshold of slot [j]. *)
Lemma subscribe_registered f t (tbl : list subscriber_t) j s :
  registry_inv tbl → tbl !! j = Some s → fn s = f → f ≠ NULL →
  picolog_subscribe f t tbl =
    (PICOLOG_ERR_NONE, <[j := {| fn := f; threshold := t |}]> tbl).
Proof.
  intros [Hlen Hnd] Hj Hs Hf. rewrite picolog_subscribe_spec by done.
  destruct (list_find _ tbl) as [[j' s']|] eqn:Hfind.
  - apply list_find_fn_Some in Hfind as (Hj' & Hs' & _).
    assert (j' = j) as ->
      by (apply (registry_unique tbl j' j s' s); try done; congruence).
    by simplify_eq.
  - apply list_find_fn_None in Hfind. destruct Hfind.
    apply elem_of_fns. eauto.
Qed.

(** A subscription that can succeed does: in the slot that holds the
    callback, or else in a free one. *)
Lemma subscribe_succeeds f t (tbl : list subscriber_t) :
  registry_inv tbl → f ≠ NULL → f ∈ fns tbl ∨ NULL ∈ fns tbl →
  ∃ j s, tbl !! j = Some s ∧
         (fn s = f ∨ (fn s = NULL ∧ f ∉ fns tbl)) ∧
         picolog_subscribe f t tbl =
           (PICOLOG_ERR_NONE, <[j := {| fn := f; threshold := t |}]> tbl).
Proof.
  intros Hinv Hf Hroom. destruct (decide (f ∈ fns tbl)) as [Hin|Hnew].
  - apply elem_of_fns in Hin as (j & s & Hj & Hs). exists j, s.
    split_and!; [done|by left|]. by apply (subscribe_registered f t tbl j s).
  - destruct Hroom as [?|Hfree]; [done|]. destruct Hinv as [Hlen _].
    destruct (subscribe_new_slot f t tbl Hlen Hnew Hfree)
      as (k & s & Hk & Hs & ->).
    exists k, s. split_and!; [done|by right|done].
Qed.

Lemma subscribe_seq_registered f ts :
  ∀ (tbl : list subscriber_t) j s,
    registry_inv tbl → tbl !! j = Some s → fn s = f → f ≠ NULL →
    subscribe_seq f ts tbl =
      (replicate (length ts) PICOLOG_ERR_NONE,
       <[j := {| fn := f; threshold := default (threshold s) (last ts) |}]>
         tbl).
Proof.
  induction ts as [|t ts IH]; intros tbl j s Hinv Hj Hs Hf.
  - cbn. f_equal. symmetry. apply list_insert_id. rewrite Hj. f_equal.
    destruct s. cbn in *. by subst.
  - cbn [subscribe_seq].
    pose proof (picolog_subscribe_inv f t tbl Hinv) as Hinv'.
    rewrite (subscribe_registered f t tbl j s) in * by done.
    cbn [fst snd] in *.
    rewrite (IH _ j {| fn := f; threshold := t |}); try done.
    + cbn [fst snd length replicate]. rewrite list_insert_insert_eq.
      rewrite last_cons. by destruct (last ts).
    + apply list_lookup_insert_eq. by eapply lookup_lt_Some.
Qed.

(** C2, as the code has it: in a registry that has room for f (f is
    registered already, or a slot is free), for every non-empty sequence
    of subscribe(f, t) calls with the same callback f other than NULL:
    every call returns success; at the end the table holds exactly one
    entry for f and its threshold is the t of the last call; the slots
    are occupied as they were after the first call, and as they were
    before it when f was registered already, so no further slot is
    taken; the entries of the other callbacks are as they were. *)
Theorem resubscribe_same_callback f t1 ts (tbl : list subscriber_t) :
  registry_inv tbl → f ≠ NULL → f ∈ fns tbl ∨ NULL ∈ fns tbl →
  fst (subscribe_seq f (t1 :: ts) tbl)
    = replicate (S (length ts)) PICOLOG_ERR_NONE ∧
  entries_of f (snd (subscribe_seq f (t1 :: ts) tbl))
    = [{| fn := f; threshold := default t1 (last ts) |}] ∧
  fns (snd (subscribe_seq f (t1 :: ts) tbl))
    = fns (snd (picolog_subscribe f t1 tbl)) ∧
  (f ∈ fns tbl → fns (snd (subscribe_seq f (t1 :: ts) tbl)) = fns tbl) ∧
  (∀ g, g ≠ f → g ≠ NULL →
     entries_of g (snd (subscribe_seq f (t1 :: ts) tbl)) = entries_of g tbl) ∧
  registry_inv (snd (subscribe_seq f (t1 :: ts) tbl)).
Proof.
  intros Hinv Hf Hroom.
  destruct (subscribe_succeeds f t1 tbl Hinv Hf Hroom)
    as (j & s & Hj & Hs & Hfirst).
  pose proof (picolog_subscribe_inv f t1 tbl Hinv) as Hinv1.
  assert (j < length tbl)%nat as Hlt by (by eapply lookup_lt_Some).
  cbn [subscribe_seq]. rewrite Hfirst in *. cbn [fst snd] in *.
  rewrite (subscribe_seq_registered f ts _ j
             {| fn := f; threshold := t1 |}); try done;
    [|by apply list_lookup_insert_eq].
  cbn [fst snd threshold]. rewrite list_insert_insert_eq.
  set (tl := default t1 (last ts)).
  assert (registry_inv (<[j := {| fn := f; threshold := tl |}]> tbl))
    as Hinv2.
  { destruct Hinv as [Hlen Hnd], Hinv1 as [_ Hnd1]. split.
    - by rewrite length_insert.
    - unfold live_fns in *. by rewrite fns_insert in *. }
  split_and!; try done.
  - apply (entries_of_unique _ j {| fn := f; threshold := tl |});
      [apply Hinv2|by apply list_lookup_insert_eq|done].
  - by rewrite !fns_insert.
  - intros Hin. destruct Hs as [Hs|[_ ?]]; [|done].
    rewrite fns_insert. apply list_insert_id. by rewrite fns_lookup, Hj, <- Hs.
  - intros g Hg Hg'. unfold entries_of.
    apply (filter_insert_out _ _ _ s); [done| |by cbn; congruence].
    destruct Hs as [Hs|[Hs _]]; congruence.
Qed.

(** ** Further properties of the registry functions *)

Lemma list_find_insert_here {A} (P : A → Prop) `{∀ x, Decision (P x)}
    (l : list A) j x :
  (j < length l)%nat → P x →
  (∀ i y, l !! i = Some y → (i < j)%nat → ¬ P y) →
  list_find P (<[j := x]> l) = Some (j, x).
Proof.
  intros Hj Hx Hbefore. apply list_find_Some. split_and!; [|done|].
  - by apply list_lookup_insert_eq.
  - intros i y Hi Hlt. rewrite list_lookup_insert_ne in Hi by lia.
    by eapply Hbefore.
Qed.

Lemma live_length_insert_free (tbl : list subscriber_t) k s x :
  tbl !! k = Some s → fn s = NULL → fn x ≠ NULL →
  length (live (<[k := x]> tbl)) = S (length (live tbl)).
Proof.
  intros Hk Hs Hx. unfold live.
  destruct (filter_insert_split (λ s, fn s ≠ NULL) tbl k s x Hk) as [-> ->].
  rewrite (filter_cons_True _ x) by done.
  rewrite (filter_cons_False _ s) by (by intros ?).
  rewrite !filter_nil, !length_app. cbn. lia.
Qed.

Lemma live_length_insert_clear (tbl : list subscriber_t) k s x :
  tbl !! k = Some s → fn s ≠ NULL → fn x = NULL →
  S (length (live (<[k := x]> tbl))) = length (live tbl).
Proof.
  intros Hk Hs Hx. unfold live.
  destruct (filter_insert_split (λ s, fn s ≠ NULL) tbl k s x Hk) as [-> ->].
  rewrite (filter_cons_True _ s) by done.
  rewrite (filter_cons_False _ x) by (by intros ?).
  rewrite !filter_nil, !length_app. cbn. lia.
Qed.

Lemma free_slot_iff_not_full (tbl : list subscriber_t) :
  NULL ∈ fns tbl ↔ (length (live tbl) < length tbl)%nat.
Proof.
  unfold fns, live. induction tbl as [|s tbl IH].
  - cbn. split; [by intros ?%elem_of_nil|lia].
  - rewrite fmap_cons, filter_cons, elem_of_cons.
    destruct (decide (fn s ≠ NULL)) as [Hs|Hs]; cbn [length].
    + rewrite <- Nat.succ_lt_mono, <- IH.
      split; [intros [?|?]; [congruence|done]|by right].
    + pose proof (length_filter (λ s, fn s ≠ NULL) tbl).
      split; [lia|]. intros _. left.
      by destruct (decide (fn s = NULL)) as [->|].
Qed.

(** Which result [picolog_subscribe] returns: success exactly when a
    slot holds the callback or a slot is free, SUBSCRIBERS_EXCEEDED
    exactly otherwise and then with the table untouched, never
    NOT_SUBSCRIBED; the table keeps its dimension. *)
Theorem subscribe_result_characterised f t (tbl : list subscriber_t) :
  length tbl = PICOLOG_MAX_SUBSCRIBERS →
  (fst (picolog_subscribe f t tbl) = PICOLOG_ERR_NONE
     ↔ f ∈ fns tbl ∨ NULL ∈ fns tbl) ∧
  (fst (picolog_subscribe f t tbl) = PICOLOG_ERR_SUBSCRIBERS_EXCEEDED
     ↔ (f ∉ fns tbl) ∧ (NULL ∉ fns tbl)) ∧
  fst (picolog_subscribe f t tbl) ≠ PICOLOG_ERR_NOT_SUBSCRIBED ∧
  (fst (picolog_subscribe f t tbl) = PICOLOG_ERR_SUBSCRIBERS_EXCEEDED →
     snd (picolog_subscribe f t tbl) = tbl) ∧
  length (snd (picolog_subscribe f t tbl)) = PICOLOG_MAX_SUBSCRIBERS.
Proof.
  intros Hlen. rewrite picolog_subscribe_spec by done.
  destruct (list_find _ tbl) as [[j s]|] eqn:Hfind.
  - apply list_find_fn_Some in Hfind as (Hj & Hs & _).
    assert (f ∈ fns tbl) by (apply elem_of_fns; eauto).
    cbn [fst snd]. rewrite length_insert. split_and!; try done.
    + split; [by left|done].
    + split; [done|]. by intros [? _].
  - apply list_find_fn_None in Hfind.
    destruct (last_free tbl) as [k|] eqn:Hlast; cbn [fst snd].
    + destruct (last_free_Some _ _ Hlast) as (s & Hk & Hs & _).
      assert (NULL ∈ fns tbl) by (apply elem_of_fns; eauto).
      rewrite length_insert. split_and!; try done.
      * split; [by right|done].
      * split; [done|]. by intros [_ ?].
    + apply last_free_None in Hlast. split_and!; try done.
      split; [done|]. by intros [?|?].
Qed.

(** Which result [picolog_unsubscribe] returns: success exactly when a
    slot holds the callback, NOT_SUBSCRIBED exactly otherwise and then
    with the table untouched, never SUBSCRIBERS_EXCEEDED; in every case
    the thresholds of all slots are left as they were. *)
Theorem unsubscribe_result_characterised f (tbl : list subscriber_t) :
  length tbl = PICOLOG_MAX_SUBSCRIBERS →
  (fst (picolog_unsubscribe f tbl) = PICOLOG_ERR_NONE ↔ f ∈ fns tbl) ∧
  (fst (picolog_unsubscribe f tbl) = PICOLOG_ERR_NOT_SUBSCRIBED
     ↔ f ∉ fns tbl) ∧
  fst (picolog_unsubscribe f tbl) ≠ PICOLOG_ERR_SUBSCRIBERS_EXCEEDED ∧
  (fst (picolog_unsubscribe f tbl) = PICOLOG_ERR_NOT_SUBSCRIBED →
     snd (picolog_unsubscribe f tbl) = tbl) ∧
  threshold <$> snd (picolog_unsubscribe f tbl) = threshold <$> tbl ∧
  length (snd (picolog_unsubscribe f tbl)) = PICOLOG_MAX_SUBSCRIBERS.
Proof.
  intros Hlen. rewrite picolog_unsubscribe_spec by done.
  destruct (list_find _ tbl) as [[j s]|] eqn:Hfind; cbn [fst snd].
  - apply list_find_fn_Some in Hfind as (Hj & Hs & _).
    assert (f ∈ fns tbl) by (apply elem_of_fns; eauto).
    rewrite length_insert. split_and!; try done.
    rewrite list_fmap_insert. cbn. apply list_insert_id.
    by rewrite list_lookup_fmap, Hj.
  - apply list_find_fn_None in Hfind. by split_and!.
Qed.

(** [picolog_subscribe] is idempotent: the same call made a second time
    returns what the first returned and leaves the table that the first
    left, for every callback, NULL included, and every table. *)
Theorem subscribe_idempotent f t (tbl : list subscriber_t) :
  length tbl = PICOLOG_MAX_SUBSCRIBERS →
  picolog_subscribe f t (snd (picolog_subscribe f t tbl))
    = picolog_subscribe f t tbl.
Proof.
  intros Hlen. rewrite (picolog_subscribe_spec f t tbl) by done.
  destruct (list_find _ tbl) as [[j s]|] eqn:Hfind.
  - apply list_find_Some in Hfind as (Hj & Hs & Hbefore). cbn [snd].
    rewrite picolog_subscribe_spec by (by rewrite length_insert).
    rewrite (list_find_insert_here _ tbl j {| fn := fn s; threshold := t |});
      [|by eapply lookup_lt_Some|done|done].
    cbn [fn]. by rewrite list_insert_insert_eq.
  - destruct (last_free tbl) as [k|] eqn:Hlast; cbn [snd].
    + destruct (last_free_Some _ _ Hlast) as (s & Hk & _).
      rewrite picolog_subscribe_spec by (by rewrite length_insert).
      rewrite (list_find_insert_here _ tbl k {| fn := f; threshold := t |});
        [|by eapply lookup_lt_Some|done|].
      * cbn [fn]. by rewrite list_insert_insert_eq.
      * intros i y Hi _. apply list_find_None in Hfind.
        rewrite Forall_lookup in Hfind. by eapply Hfind.
    + rewrite picolog_subscribe_spec by done. by rewrite Hfind, Hlast.
Qed.

(** Neither registry function disturbs another subscriber: whatever the
    call returns, the entries of every callback other than the one
    passed, NULL aside, are the same before and after. *)
Theorem registry_calls_frame f t g (tbl : list subscriber_t) :
  length tbl = PICOLOG_MAX_SUBSCRIBERS →
  g ≠ f → g ≠ NULL →
  entries_of g (snd (picolog_subscribe f t tbl)) = entries_of g tbl ∧
  entries_of g (snd (picolog_unsubscribe f tbl)) = entries_of g tbl.
Proof.
  intros Hlen Hgf Hg. split.
  - rewrite picolog_subscribe_spec by done.
    destruct (list_find _ tbl) as [[j s]|] eqn:Hfind; cbn [snd].
    + apply list_find_fn_Some in Hfind as (Hj & Hs & _).
      apply (filter_insert_out _ _ _ s); [done|..]; cbn; congruence.
    + destruct (last_free tbl) as [k|] eqn:Hlast; [|done]. cbn [snd].
      destruct (last_free_Some _ _ Hlast) as (s & Hk & Hs & _).
      apply (filter_insert_out _ _ _ s); [done|..]; cbn; congruence.
  - rewrite picolog_unsubscribe_spec by done.
    destruct (list_find _ tbl) as [[j s]|] eqn:Hfind; [|done]. cbn [snd].
    apply list_find_fn_Some in Hfind as (Hj & Hs & _).
    apply (filter_insert_out _ _ _ s); [done|..]; cbn; congruence.
Qed.

(** The capacity, counted: a callback that no slot holds is accepted
    exactly when fewer than PICOLOG_MAX_SUBSCRIBERS subscribers are
    live, and then there is one live subscriber more; it is refused
    exactly when all PICOLOG_MAX_SUBSCRIBERS slots are live. *)
Theorem subscribe_new_iff_not_full f t (tbl : list subscriber_t) :
  length tbl = PICOLOG_MAX_SUBSCRIBERS →
  f ≠ NULL → f ∉ fns tbl →
  (fst (picolog_subscribe f t tbl) = PICOLOG_ERR_NONE
     ↔ (length (live tbl) < PICOLOG_MAX_SUBSCRIBERS)%nat) ∧
  (fst (picolog_subscribe f t tbl) = PICOLOG_ERR_SUBSCRIBERS_EXCEEDED
     ↔ length (live tbl) = PICOLOG_MAX_SUBSCRIBERS) ∧
  (fst (picolog_subscribe f t tbl) = PICOLOG_ERR_NONE →
     length (live (snd (picolog_subscribe f t tbl)))
       = S (length (live tbl))).
Proof.
  intros Hlen Hf Hnew.
  pose proof (free_slot_iff_not_full tbl) as Hfree. rewrite Hlen in Hfree.
  pose proof (length_filter (λ s, fn s ≠ NULL) tbl) as Hle.
  fold (live tbl) in Hle. rewrite Hlen in Hle.
  rewrite picolog_subscribe_spec by done.
  apply list_find_fn_None in Hnew as Hfind. rewrite Hfind.
  destruct (last_free tbl) as [k|] eqn:Hlast; cbn [fst snd].
  - destruct (last_free_Some _ _ Hlast) as (s & Hk & Hs & _).
    assert (NULL ∈ fns tbl) as Hin by (apply elem_of_fns; eauto).
    apply Hfree in Hin. split_and!.
    + done.
    + split; [done|lia].
    + intros _. by apply (live_length_insert_free tbl k s).
  - apply last_free_None in Hlast. split_and!.
    + split; [done|]. intros Hlt. by apply Hfree in Hlt.
    + split; [|done]. intros _.
      destruct (decide (length (live tbl) < PICOLOG_MAX_SUBSCRIBERS)%nat)
        as [Hlt|]; [|lia]. by apply Hfree in Hlt.
    + done.
Qed.

(** ** Calls in sequence *)

(** The table after [picolog_unsubscribe] of a callback that some slot
    holds, in a registry that satisfies its invariant. *)
Lemma unsubscribe_registered f (tbl : list subscriber_t) :
  registry_inv tbl → f ≠ NULL → f ∈ fns tbl →
  ∃ j s, tbl !! j = Some s ∧ fn s = f ∧
         picolog_unsubscribe f tbl =
           (PICOLOG_ERR_NONE,
            <[j := {| fn := NULL; threshold := threshold s |}]> tbl) ∧
         (f ∉ fns (<[j := {| fn := NULL; threshold := threshold s |}]> tbl)).
Proof.
  intros [Hlen Hnd] Hf Hin. rewrite picolog_unsubscribe_spec by done.
  destruct (list_find _ tbl) as [[j s]|] eqn:Hfind;
    [|by apply list_find_fn_None in Hfind].
  apply list_find_fn_Some in Hfind as (Hj & Hs & _).
  exists j, s. split_and!; try done.
  rewrite elem_of_fns. intros (i & s' & Hi & Hs').
  apply list_lookup_insert_Some in Hi as [(_ & <- & _)|[Hij Hi]].
  - cbn in Hs'. congruence.
  - destruct Hij. apply (registry_unique tbl j i s s'); try done; congruence.
Qed.

(** Subscribe, then unsubscribe: for a callback that no slot holds and a
    table with a free slot, the unsubscription succeeds and gives back
    the pointers and the live subscribers of the start; the table is the
    one of the start but for the threshold of one free slot, which now
    holds the threshold passed, and every message is dispatched as it
    would have been at the start. *)
Theorem subscribe_then_unsubscribe f t (tbl : list subscriber_t) :
  length tbl = PICOLOG_MAX_SUBSCRIBERS →
  f ∉ fns tbl → NULL ∈ fns tbl →
  fst (picolog_unsubscribe f (snd (picolog_subscribe f t tbl)))
    = PICOLOG_ERR_NONE ∧
  fns (snd (picolog_unsubscribe f (snd (picolog_subscribe f t tbl))))
    = fns tbl ∧
  live (snd (picolog_unsubscribe f (snd (picolog_subscribe f t tbl))))
    = live tbl ∧
  (∃ k s, tbl !! k = Some s ∧ fn s = NULL ∧
          snd (picolog_unsubscribe f (snd (picolog_subscribe f t tbl)))
            = <[k := {| fn := NULL; threshold := t |}]> tbl) ∧
  (∀ severity fmt ap buf,
     picolog_message severity fmt ap
       (snd (picolog_unsubscribe f (snd (picolog_subscribe f t tbl)))) buf
     = picolog_message severity fmt ap tbl buf).
Proof.
  intros Hlen Hnew Hfree.
  destruct (subscribe_new_slot f t tbl Hlen Hnew Hfree)
    as (k & s & Hk & Hs & ->). cbn [snd].
  assert (k < length tbl)%nat as Hlt by (by eapply lookup_lt_Some).
  rewrite picolog_unsubscribe_spec by (by rewrite length_insert).
  rewrite (list_find_insert_here _ tbl k {| fn := f; threshold := t |});
    [|done|done|].
  2:{ intros i y Hi _ Hy. apply Hnew, elem_of_fns. eauto. }
  cbn [fst snd threshold]. rewrite list_insert_insert_eq.
  assert (live (<[k := {| fn := NULL; threshold := t |}]> tbl) = live tbl)
    as Hlive.
  { unfold live. apply (filter_insert_out _ _ _ s); [done|..]; cbn; tauto. }
  split_and!; try done.
  - rewrite fns_insert. apply list_insert_id.
    rewrite fns_lookup, Hk. cbn. by rewrite Hs.
  - by exists k, s.
  - intros severity fmt ap buf.
    rewrite !picolog_message_spec by (by rewrite ?length_insert).
    destruct (vsnprintf _ _ _) as [buf'|]; [|done]. cbn. do 3 f_equal.
    unfold for_each_matching. f_equal.
    apply (filter_insert_out _ _ _ s); [done|..]; cbn; tauto.
Qed.

(** Unsubscribe, then subscribe again: for a registered callback the
    new subscription succeeds, the callback has exactly one entry with
    the new threshold, as many subscribers are live as at the start and
    the invariant holds; the callback is in the free slot that the scan
    meets last, a slot of the same or of a higher index than the one it
    left. *)
Theorem unsubscribe_then_subscribe f t (tbl : list subscriber_t) :
  registry_inv tbl → f ≠ NULL → f ∈ fns tbl →
  fst (picolog_subscribe f t (snd (picolog_unsubscribe f tbl)))
    = PICOLOG_ERR_NONE ∧
  entries_of f (snd (picolog_subscribe f t (snd (picolog_unsubscribe f tbl))))
    = [{| fn := f; threshold := t |}] ∧
  length (live (snd (picolog_subscribe f t
                       (snd (picolog_unsubscribe f tbl)))))
    = length (live tbl) ∧
  registry_inv (snd (picolog_subscribe f t (snd (picolog_unsubscribe f tbl)))) ∧
  (∃ j k s, tbl !! j = Some s ∧ fn s = f ∧ (j ≤ k)%nat ∧
            snd (picolog_subscribe f t (snd (picolog_unsubscribe f tbl))) !! k
              = Some {| fn := f; threshold := t |}).
Proof.
  intros Hinv Hf Hin.
  pose proof (picolog_unsubscribe_inv f tbl Hinv) as Hinv1.
  destruct (unsubscribe_registered f tbl Hinv Hf Hin)
    as (j & s & Hj & Hs & Hun & Hgone).
  rewrite Hun in *. cbn [snd] in *.
  set (tbl1 := <[j := {| fn := NULL; threshold := threshold s |}]> tbl) in *.
  pose proof (picolog_subscribe_inv f t tbl1 Hinv1) as Hinv2.
  destruct Hinv as [Hlen Hnd]. destruct Hinv1 as [Hlen1 Hnd1].
  assert (j < length tbl)%nat as Hlt by (by eapply lookup_lt_Some).
  assert (tbl1 !! j = Some {| fn := NULL; threshold := threshold s |})
    as Hj1 by (by apply list_lookup_insert_eq).
  rewrite picolog_subscribe_spec in * by done.
  apply list_find_fn_None in Hgone as Hfind. rewrite Hfind in *.
  destruct (last_free tbl1) as [k|] eqn:Hlast.
  2:{ apply last_free_None in Hlast. destruct Hlast.
      apply elem_of_fns. eauto. }
  destruct (last_free_Some _ _ Hlast) as (s' & Hk & Hs' & Hafter).
  cbn [fst snd] in *.
  assert (k < length tbl1)%nat as Hlt' by (by eapply lookup_lt_Some).
  assert (<[k := {| fn := f; threshold := t |}]> tbl1 !! k
          = Some {| fn := f; threshold := t |}) as Hk2
    by (by apply list_lookup_insert_eq).
  split_and!; try done.
  - by apply (entries_of_unique _ k {| fn := f; threshold := t |});
      [apply Hinv2|..].
  - rewrite (live_length_insert_free tbl1 k s') by done.
    apply (live_length_insert_clear tbl j s); [done|congruence|done].
  - exists j, k, s. split_and!; try done.
    destruct (decide (j ≤ k)%nat) as [|Hkj]; [done|].
    by destruct (Hafter j _ ltac:(lia) Hj1).
Qed.

(** What an unsubscription does to the messages: once a registered
    callback is unsubscribed, one subscriber fewer is live, a second
    unsubscription of it returns NOT_SUBSCRIBED, and a message, at any
    severity, no longer calls it, while every other callback is called
    as often as it would have been without the unsubscription. *)
Theorem unsubscribe_silences f (tbl : list subscriber_t) :
  registry_inv tbl → f ≠ NULL → f ∈ fns tbl →
  fst (picolog_unsubscribe f tbl) = PICOLOG_ERR_NONE ∧
  S (length (live (snd (picolog_unsubscribe f tbl)))) = length (live tbl) ∧
  picolog_unsubscribe f (snd (picolog_unsubscribe f tbl))
    = (PICOLOG_ERR_NOT_SUBSCRIBED, snd (picolog_unsubscribe f tbl)) ∧
  (∀ severity fmt ap buf,
     buffer_inv buf →
     ∃ buf' tr tr0,
       picolog_message severity fmt ap (snd (picolog_unsubscribe f tbl)) buf
         = Some (buf', tr) ∧
       picolog_message severity fmt ap tbl buf = Some (buf', tr0) ∧
       calls_to f tr = 0%nat ∧
       (∀ g, g ≠ f → calls_to g tr = calls_to g tr0)).
Proof.
  intros Hinv Hf Hin.
  pose proof (picolog_unsubscribe_inv f tbl Hinv) as [Hlen1 _].
  destruct (unsubscribe_registered f tbl Hinv Hf Hin)
    as (j & s & Hj & Hs & Hun & Hgone).
  destruct Hinv as [Hlen Hnd]. rewrite Hun in *. cbn [fst snd] in *.
  set (tbl1 := <[j := {| fn := NULL; threshold := threshold s |}]> tbl) in *.
  assert (∀ g, g ≠ NULL → g ≠ f → entries_of g tbl1 = entries_of g tbl)
    as Hframe.
  { intros g Hg Hgf. unfold entries_of.
    apply (filter_insert_out _ _ _ s); [done|..]; cbn; congruence. }
  split_and!; try done.
  - apply (live_length_insert_clear tbl j s); [done|congruence|done].
  - rewrite picolog_unsubscribe_spec by done.
    by apply list_find_fn_None in Hgone as ->.
  - intros severity fmt ap buf Hbuf.
    destruct (picolog_message_total severity fmt ap tbl buf Hlen Hbuf)
      as (buf' & Hv & Hm & _).
    eexists buf', _, _. split_and!; [|exact Hm| |].
    + by rewrite picolog_message_spec, Hv.
    + rewrite calls_to_cons_format, calls_to_for_each_matching.
      rewrite filter_none; [done|]. intros s' Hs' _.
      unfold entries_of in Hs'. apply list_elem_of_filter in Hs' as [Hfs' Hs'].
      apply Hgone, elem_of_fns.
      apply list_elem_of_lookup_1 in Hs' as [i Hi]. eauto.
    + intros g Hg. rewrite !calls_to_cons_format, !calls_to_for_each_matching.
      destruct (decide (g = NULL)) as [->|Hg']; [|by rewrite Hframe].
      rewrite !filter_none; [done|..]; intros s' Hs' [Hlive _];
        unfold entries_of in Hs'; by apply list_elem_of_filter in Hs' as [? _].
Qed.

(** A message that no live subscriber admits is formatted all the same:
    the only event is the [vsnprintf], and the message buffer is
    overwritten with the new text. *)
Theorem message_without_listener severity fmt ap (tbl : list subscriber_t)
    (buf : list byte) :
  length tbl = PICOLOG_MAX_SUBSCRIBERS → buffer_inv buf →
  (∀ s, s ∈ tbl → fn s = NULL ∨ severity < threshold s) →
  ∃ buf',
    picolog_message severity fmt ap tbl buf
      = Some (buf', [Ev_vsnprintf PICOLOG_MAX_MESSAGE_LENGTH fmt ap]) ∧
    c_string buf' =
      c_string (take (PICOLOG_MAX_MESSAGE_LENGTH - 1) (printf_expand fmt ap)).
Proof.
  intros Hlen Hbuf Hnone.
  destruct (picolog_message_total severity fmt ap tbl buf Hlen Hbuf)
    as (buf' & _ & Hm & _ & Htext & _).
  exists buf'. split; [|done]. rewrite Hm. do 3 f_equal.
  unfold for_each_matching. rewrite filter_none; [done|].
  intros s Hs [Hlive Hle]. destruct (Hnone s Hs); [done|lia].
Qed.



(** ** Level names, the console formatter and the macros *)

Ltac unfold_levels :=
  unfold picolog_levels, PICOLOG_TRACE_LEVEL, PICOLOG_DEBUG_LEVEL,
    PICOLOG_INFO_LEVEL, PICOLOG_WARNING_LEVEL, PICOLOG_ERROR_LEVEL,
    PICOLOG_CRITICAL_LEVEL, PICOLOG_ALWAYS_LEVEL in *.

Lemma elem_of_picolog_levels (severity : picolog_level_t) :
  severity ∈ picolog_levels ↔ 100 <= severity <= 106.
Proof.
  unfold_levels. rewrite !elem_of_cons, elem_of_nil. unfold picolog_level_t in *.
  lia.
Qed.

Lemma level_names_unknown (severity : picolog_level_t) :
  picolog_level_name severity = UNKNOWN → severity ∉ picolog_levels.
Proof.
  rewrite elem_of_picolog_levels.
  unfold picolog_level_name, UNKNOWN. unfold_levels.
  unfold picolog_level_t in *.
  repeat case_decide; subst; try done; lia.
Qed.

(** The names of the levels: the seven enumerators have seven different
    names, none of them the name of the [default], and every other
    value of the level type is named UNKNOWN; so a name tells the
    enumerator it was made from. *)
Theorem level_names_distinct :
  (∀ a b, a ∈ picolog_levels → b ∈ picolog_levels →
          picolog_level_name a = picolog_level_name b → a = b) ∧
  (∀ severity,
     picolog_level_name severity = UNKNOWN ↔ severity ∉ picolog_levels).
Proof.
  split.
  - intros a b Ha Hb. unfold_levels.
    repeat (apply elem_of_cons in Ha as [->|Ha]);
      try (by apply elem_of_nil in Ha);
      repeat (apply elem_of_cons in Hb as [->|Hb]);
      try (by apply elem_of_nil in Hb); by cbv.
  - intros severity. rewrite elem_of_picolog_levels.
    unfold picolog_level_name, UNKNOWN. unfold_levels.
    unfold picolog_level_t in *.
    repeat case_decide; subst; split; try done; lia.
Qed.

Lemma format_body_cases severity (msg : list byte) :
  (severity ∉ picolog_levels → picolog_format_body severity msg = []) ∧
  (severity ∈ picolog_levels →
     ∃ colour,
       colour ∈ [NORMAL; WHITE; GREEN; YELLOW; RED; MAGENTA; BLUE] ∧
       picolog_format_body severity msg =
         [Ev_printf
            (colour ++ [x5b] ++ picolog_level_name severity ++ [x5d; x20] ++
             c_string msg ++ [x20] ++ NORMAL ++ [x0a])]).
Proof.
  split.
  - rewrite elem_of_picolog_levels. unfold picolog_format_body.
    unfold_levels. unfold picolog_level_t in *.
    intros Hout. repeat case_decide; subst; try done; lia.
  - intros Hin. unfold picolog_format_body, printf_line.
    apply elem_of_picolog_levels in Hin.
    repeat case_decide; try (unfold_levels; unfold picolog_level_t in *; lia).
    all: eexists; split; [|reflexivity]; by repeat constructor.
Qed.

(** The console formatter: for a severity that is no enumerator it
    prints nothing, the [switch] having no [default]; for an enumerator
    it prints one line, which starts with one of the seven colours that
    the cases use, names the level in brackets, never as UNKNOWN, holds
    the text of the message up to its null character, and ends with a
    space, the reset sequence and a newline. *)
Theorem format_prints_known_levels severity (msg : list byte) :
  (severity ∉ picolog_levels → picolog_format_body severity msg = []) ∧
  (severity ∈ picolog_levels →
     picolog_level_name severity ≠ UNKNOWN ∧
     ∃ colour,
       colour ∈ [NORMAL; WHITE; GREEN; YELLOW; RED; MAGENTA; BLUE] ∧
       picolog_format_body severity msg =
         [Ev_printf
            (colour ++ [x5b] ++ picolog_level_name severity ++ [x5d; x20] ++
             c_string msg ++ [x20] ++ NORMAL ++ [x0a])]).
Proof.
  destruct (format_body_cases severity msg) as [Hnone Hline].
  split; [done|]. intros Hin. split; [|by apply Hline].
  intros Hname. by apply level_names_unknown in Hname.
Qed.

(** The delivery pass looks at the live slots alone. *)
Lemma for_each_matching_live severity msg (tbl : list subscriber_t) :
  for_each_matching severity msg tbl =
    (λ s, Ev_call (fn s) severity msg) <$>
      filter (λ s, threshold s <= severity) (live tbl).
Proof.
  unfold for_each_matching, live. f_equal.
  induction tbl as [|s tbl IH]; [done|].
  rewrite !(filter_cons _ s).
  destruct (decide (fn s ≠ NULL)) as [Hs|Hs].
  - rewrite (filter_cons _ s).
    destruct (decide (threshold s <= severity)).
    + rewrite decide_True by done. by rewrite IH.
    + by rewrite decide_False by (by intros [_ ?]).
  - by rewrite decide_False by (by intros [? _]).
Qed.

(** How often a message calls the callback of a live slot. *)
Lemma calls_to_live_slot severity fmt ap (tbl : list subscriber_t)
    (buf : list byte) i s :
  registry_inv tbl → buffer_inv buf → tbl !! i = Some s → fn s ≠ NULL →
  ∃ buf' tr,
    picolog_message severity fmt ap tbl buf = Some (buf', tr) ∧
    calls_to (fn s) tr =
      if decide (threshold s <= severity) then 1%nat else 0%nat.
Proof.
  intros [Hlen Hnd] Hbuf Hi Hlive.
  destruct (picolog_message_total severity fmt ap tbl buf Hlen Hbuf)
    as (buf' & _ & Hm & _).
  eexists _, _. split; [exact Hm|].
  rewrite calls_to_cons_format, calls_to_for_each_matching.
  rewrite (entries_of_unique tbl i s) by done.
  rewrite filter_cons, filter_nil.
  destruct (decide (threshold s <= severity)).
  - by rewrite decide_True by done.
  - by rewrite decide_False by (by intros [_ ?]).
Qed.

(** The macros at the two ends of the scale: for a live subscriber whose
    threshold is one of the seven levels, PICOLOG_ALWAYS calls it once,
    whatever the threshold, and PICOLOG_TRACE calls it once when the
    threshold is TRACE and not at all otherwise. *)
Theorem macros_at_the_ends fmt ap (tbl : list subscriber_t)
    (buf : list byte) i s :
  registry_inv tbl → buffer_inv buf →
  tbl !! i = Some s → fn s ≠ NULL → threshold s ∈ picolog_levels →
  (∃ buf' tr,
     PICOLOG_ALWAYS fmt ap tbl buf = Some (buf', tr) ∧
     calls_to (fn s) tr = 1%nat) ∧
  (∃ buf' tr,
     PICOLOG_TRACE fmt ap tbl buf = Some (buf', tr) ∧
     calls_to (fn s) tr =
       if decide (threshold s = PICOLOG_TRACE_LEVEL) then 1%nat else 0%nat).
Proof.
  intros Hinv Hbuf Hi Hlive Hlevel.
  apply elem_of_picolog_levels in Hlevel. unfold PICOLOG_ALWAYS, PICOLOG_TRACE.
  split.
  - destruct (calls_to_live_slot PICOLOG_ALWAYS_LEVEL fmt ap tbl buf i s
                Hinv Hbuf Hi Hlive) as (buf' & tr & Hm & Hcount).
    exists buf', tr. split; [done|]. rewrite Hcount.
    apply decide_True. unfold_levels. lia.
  - destruct (calls_to_live_slot PICOLOG_TRACE_LEVEL fmt ap tbl buf i s
                Hinv Hbuf Hi Hlive) as (buf' & tr & Hm & Hcount).
    exists buf', tr. split; [done|]. rewrite Hcount.
    unfold_levels. unfold picolog_level_t in *.
    repeat case_decide; try done; lia.
Qed.

(** ** The layout of the table and the order of delivery *)

Lemma fns_zero_prefix m (rest : list subscriber_t) f :
  f ≠ NULL → f ∈ fns (replicate m zero_subscriber ++ rest) → f ∈ fns rest.
Proof.
  unfold fns. rewrite fmap_app, elem_of_app, fmap_replicate.
  intros Hf [Hin|Hin]; [|done].
  apply elem_of_replicate in Hin as [Heq _]. cbn in Heq. congruence.
Qed.

Lemma last_free_zero_prefix m (rest : list subscriber_t) :
  (∀ s, s ∈ rest → fn s ≠ NULL) →
  last_free (replicate (S m) zero_subscriber ++ rest) = Some m.
Proof.
  intros Hrest.
  assert ((replicate (S m) zero_subscriber ++ rest) !! m
          = Some zero_subscriber) as Hm.
  { rewrite lookup_app_l by (rewrite length_replicate; lia).
    apply lookup_replicate_2. lia. }
  destruct (last_free _) as [k|] eqn:Hlast.
  - destruct (last_free_Some _ _ Hlast) as (s & Hk & Hs & Hafter).
    f_equal. destruct (Nat.lt_trichotomy k m) as [Hlt|[->|Hgt]]; [|done|].
    + by destruct (Hafter m _ Hlt Hm).
    + rewrite lookup_app_r in Hk by (rewrite length_replicate; lia).
      destruct (Hrest s); [|done]. by eapply list_elem_of_lookup_2.
  - apply last_free_None in Hlast. destruct Hlast.
    apply elem_of_fns. eauto.
Qed.

(** A new callback goes right before the live slots when the free slots
    are the slots in front of them. *)
Lemma subscribe_into_zero_prefix f t m (rest : list subscriber_t) :
  length (replicate (S m) zero_subscriber ++ rest) = PICOLOG_MAX_SUBSCRIBERS →
  f ≠ NULL → f ∉ fns rest → (∀ s, s ∈ rest → fn s ≠ NULL) →
  picolog_subscribe f t (replicate (S m) zero_subscriber ++ rest) =
    (PICOLOG_ERR_NONE,
     replicate m zero_subscriber ++ {| fn := f; threshold := t |} :: rest).
Proof.
  intros Hlen Hf Hnew Hrest. rewrite picolog_subscribe_spec by done.
  assert (list_find (λ s, fn s = f)
            (replicate (S m) zero_subscriber ++ rest) = None) as ->.
  { apply list_find_fn_None. intros Hin. by apply fns_zero_prefix in Hin. }
  rewrite last_free_zero_prefix by done. f_equal.
  rewrite replicate_S_end, <- app_assoc. cbn [app].
  rewrite insert_app_r_alt by (by rewrite length_replicate).
  by rewrite length_replicate, Nat.sub_diag.
Qed.

Lemma subscribe_all_zero_prefix subs :
  ∀ m (rest : list subscriber_t),
    length (replicate m zero_subscriber ++ rest) = PICOLOG_MAX_SUBSCRIBERS →
    (∀ s, s ∈ rest → fn s ≠ NULL) →
    NoDup (fn <$> subs) →
    (∀ s, s ∈ subs → fn s ≠ NULL ∧ fn s ∉ fns rest) →
    (length subs ≤ m)%nat →
    subscribe_all subs (replicate m zero_subscriber ++ rest) =
      replicate (m - length subs) zero_subscriber ++ reverse subs ++ rest.
Proof.
  induction subs as [|s subs IH]; intros m rest Hlen Hrest Hnd Hsubs Hle.
  - cbn. by rewrite Nat.sub_0_r.
  - destruct m as [|m]; [cbn in Hle; lia|].
    rewrite fmap_cons in Hnd. apply NoDup_cons in Hnd as [Hs Hnd].
    destruct (Hsubs s ltac:(left)) as [Hlive Hnew].
    unfold subscribe_all in *. cbn [foldl].
    rewrite subscribe_into_zero_prefix by done. cbn [snd].
    assert ({| fn := fn s; threshold := threshold s |} = s) as ->
      by (by destruct s).
    rewrite IH; try done.
    + cbn [length]. rewrite reverse_cons, <- app_assoc.
      by replace (S m - S (length subs))%nat with (m - length subs)%nat by lia.
    + rewrite <- Hlen, !length_app, !length_replicate. cbn. lia.
    + intros s' [->|?]%elem_of_cons; [done|by apply Hrest].
    + intros s' Hs'. destruct (Hsubs s' ltac:(by right)) as [? Hnot].
      split; [done|]. unfold fns. rewrite fmap_cons, not_elem_of_cons.
      split; [|done]. intros Heq. apply Hs. rewrite <- Heq.
      apply list_elem_of_fmap. eauto.
    + cbn in Hle. lia.
Qed.

Lemma picolog_init_layout t (tbl : list subscriber_t) :
  snd (picolog_init t tbl) =
    replicate (PICOLOG_MAX_SUBSCRIBERS - 1) zero_subscriber ++
    [{| fn := picolog_format; threshold := t |}].
Proof.
  unfold picolog_init, memset_subscribers. cbn [snd].
  pose proof max_subscribers_pos as Hpos.
  destruct PICOLOG_MAX_SUBSCRIBERS as [|n] eqn:HN; [lia|].
  rewrite <- (app_nil_r (replicate (S n) zero_subscriber)).
  rewrite subscribe_into_zero_prefix; try done.
  - cbn [snd]. by replace (S n - 1)%nat with n by lia.
  - rewrite app_nil_r, length_replicate. done.
  - by intros ?%elem_of_nil.
  - by intros s ?%elem_of_nil.
Qed.

Lemma live_zero_prefix m (rest : list subscriber_t) :
  (∀ s, s ∈ rest → fn s ≠ NULL) →
  live (replicate m zero_subscriber ++ rest) = rest.
Proof.
  intros Hrest. unfold live. rewrite filter_app.
  rewrite filter_none.
  - cbn. induction rest as [|s rest IH]; [done|].
    rewrite filter_cons_True by (apply Hrest; left). f_equal.
    apply IH. intros s' Hs'. apply Hrest. by right.
  - intros s [-> _]%elem_of_replicate. by intros ?.
Qed.

(** The layout after initialisation: picolog_init leaves the formatter
    in the last slot, not in the first, and distinct new callbacks
    subscribed after it fill the table from the back.  A message is
    therefore delivered to the subscriber registered last first, and to
    the console formatter after all of them. *)
Theorem delivery_order_after_init t (tbl subs : list subscriber_t) :
  NoDup (fn <$> subs) →
  (∀ s, s ∈ subs → fn s ≠ NULL ∧ fn s ≠ picolog_format) →
  (length subs < PICOLOG_MAX_SUBSCRIBERS)%nat →
  subscribe_all subs (snd (picolog_init t tbl)) =
    replicate (PICOLOG_MAX_SUBSCRIBERS - 1 - length subs) zero_subscriber ++
    reverse subs ++ [{| fn := picolog_format; threshold := t |}] ∧
  (∀ severity fmt ap buf,
     buffer_inv buf →
     ∃ buf',
       picolog_message severity fmt ap
         (subscribe_all subs (snd (picolog_init t tbl))) buf =
       Some (buf',
             Ev_vsnprintf PICOLOG_MAX_MESSAGE_LENGTH fmt ap ::
               ((λ s, Ev_call (fn s) severity buf') <$>
                  filter (λ s, threshold s <= severity)
                    (reverse subs ++
                     [{| fn := picolog_format; threshold := t |}])))).
Proof.
  intros Hnd Hsubs Hlt.
  pose proof (picolog_init_inv t tbl) as [Hlen _].
  rewrite picolog_init_layout in *.
  assert (∀ s, s ∈ [{| fn := picolog_format; threshold := t |}] →
               fn s ≠ NULL) as Hrest
    by (by intros s ->%list_elem_of_singleton).
  assert (∀ s, s ∈ subs →
            fn s ≠ NULL ∧
            fn s ∉ fns [{| fn := picolog_format; threshold := t |}])
    as Hsubs'.
  { intros s Hs. destruct (Hsubs s Hs) as [? Hpf]. split; [done|].
    unfold fns. cbn. by intros ?%list_elem_of_singleton. }
  rewrite subscribe_all_zero_prefix; [|done|done|done|done|lia].
  split; [done|]. intros severity fmt ap buf Hbuf.
  set (tbl' := replicate _ _ ++ _ ++ _).
  assert (length tbl' = PICOLOG_MAX_SUBSCRIBERS) as Hlen'.
  { unfold tbl'. rewrite !length_app, length_replicate, length_reverse.
    cbn. lia. }
  destruct (picolog_message_total severity fmt ap tbl' buf Hlen' Hbuf)
    as (buf' & _ & Hm & _).
  exists buf'. rewrite Hm, for_each_matching_live.
  unfold tbl'. rewrite live_zero_prefix; [done|]. intros s Hs.
  apply elem_of_app in Hs as [Hs|Hs]; [|by apply Hrest].
  rewrite elem_of_reverse in Hs. by destruct (Hsubs s Hs).
Qed.

(** The console, end to end: after picolog_init(t), whatever the table
    held, what a message puts on the standard output is what the
    formatter prints for the message's severity and the text left in
    the buffer when the severity is at least t, and nothing otherwise.
    So a severity below t prints nothing, a severity that is no
    enumerator prints nothing even when it is above t, and an enumerator
    at or above t prints one line with its name and the first
    capacity-1 characters of the expansion, up to a null character. *)
Theorem console_after_init t (tbl : list subscriber_t) severity fmt ap
    (buf : list byte) :
  buffer_inv buf →
  ∃ buf' tr,
    picolog_message severity fmt ap (snd (picolog_init t tbl)) buf
      = Some (buf', tr) ∧
    stdout_of tr =
      (if decide (severity >= t)
       then e ← picolog_format_body severity buf'; printed e
       else []) ∧
    (severity < t ∨ severity ∉ picolog_levels → stdout_of tr = []) ∧
    (severity >= t → severity ∈ picolog_levels →
       ∃ colour,
         stdout_of tr =
           colour ++ [x5b] ++ picolog_level_name severity ++ [x5d; x20] ++
           c_string (take (PICOLOG_MAX_MESSAGE_LENGTH - 1)
                       (printf_expand fmt ap)) ++
           [x20] ++ NORMAL ++ [x0a]).
Proof.
  intros Hbuf. pose proof (picolog_init_inv t tbl) as [Hlen _].
  destruct (picolog_message_total severity fmt ap _ buf Hlen Hbuf)
    as (buf' & _ & Hm & _ & Htext & _).
  eexists _, _. split; [exact Hm|].
  rewrite for_each_matching_live, picolog_init_live.
  assert (stdout_of
            (Ev_vsnprintf PICOLOG_MAX_MESSAGE_LENGTH fmt ap ::
               ((λ s, Ev_call (fn s) severity buf') <$>
                  filter (λ s, threshold s <= severity)
                    [{| fn := picolog_format; threshold := t |}]))
          = if decide (severity >= t)
            then e ← picolog_format_body severity buf'; printed e
            else []) as Hout.
  { rewrite filter_cons, filter_nil. cbn [threshold].
    destruct (decide (severity >= t)).
    - rewrite decide_True by lia. unfold stdout_of. cbn.
      by rewrite app_nil_r.
    - by rewrite decide_False by lia. }
  rewrite Hout. split_and!; [done| |].
  - intros [Hlow|Hunknown].
    + by rewrite decide_False by lia.
    + destruct (decide (severity >= t)); [|done].
      destruct (format_body_cases severity buf') as [Hnone _].
      by rewrite Hnone.
  - intros Hge Hknown. rewrite decide_True by done.
    destruct (format_body_cases severity buf') as [_ Hline].
    destruct (Hline Hknown) as (colour & _ & ->).
    exists colour. cbn. rewrite app_nil_r. by rewrite Htext.
Qed.

End Picolog.

Arguments Ev_printf {va_list} out.
Arguments Ev_vsnprintf {va_list} n fmt ap.
Arguments Ev_call {va_list} f severity msg.
Arguments for_each_matching {va_list} severity msg s_subscribers.
Arguments calls_to {va_list} f tr.
Arguments formats {va_list} tr.
Arguments picolog_message {cfg va_list} printf_expand severity fmt ap
  s_subscribers s_message.

(** ** The theorems at the header's configuration

    The inputs are tables of six slots and a buffer of 120 characters;
    the formatter copies its format, which has no conversion. *)

(** C3 at a table filled by six callbacks, for a seventh. *)
Lemma subscribe_full_table_exceeded_witness :
  let tbl :=
    [ {| fn := user_fn 1; threshold := PICOLOG_TRACE_LEVEL |};
      {| fn := user_fn 2; threshold := PICOLOG_DEBUG_LEVEL |};
      {| fn := user_fn 3; threshold := PICOLOG_INFO_LEVEL |};
      {| fn := user_fn 4; threshold := PICOLOG_WARNING_LEVEL |};
      {| fn := user_fn 5; threshold := PICOLOG_ERROR_LEVEL |};
      {| fn := picolog_format; threshold := PICOLOG_ALWAYS_LEVEL |} ] in
  length tbl = PICOLOG_MAX_SUBSCRIBERS (picolog_config := default_config) ∧
  (∀ s, s ∈ tbl → fn s ≠ NULL ∧ fn s ≠ user_fn 7) ∧
  picolog_subscribe (cfg := default_config) (user_fn 7)
    PICOLOG_INFO_LEVEL tbl = (PICOLOG_ERR_SUBSCRIBERS_EXCEEDED, tbl).
Proof.
  intros tbl.
  assert (length tbl = PICOLOG_MAX_SUBSCRIBERS (picolog_config := default_config))
    as Hlen by reflexivity.
  assert (∀ s, s ∈ tbl → fn s ≠ NULL ∧ fn s ≠ user_fn 7) as Hfull.
  { apply Forall_forall. by repeat constructor. }
  split_and!; [done..|].
  apply (subscribe_full_table_exceeded (cfg := default_config)); done.
Defined.

(** C4 as stated fails on the zeroed table: the ascending scan meets the
    free slot 0 first, and the new callback is stored in slot 5, slot 0
    staying free. *)
Lemma subscribe_first_free_counterexample :
  let tbl := memset_subscribers (cfg := default_config) in
  let r := picolog_subscribe (cfg := default_config) (user_fn 1)
             PICOLOG_INFO_LEVEL tbl in
  (user_fn 1 ∉ fns tbl) ∧ NULL ∈ fns tbl ∧
  first_free tbl = Some 0%nat ∧
  fst r = PICOLOG_ERR_NONE ∧
  snd r !! 0%nat = Some zero_subscriber ∧
  snd r !! 5%nat
    = Some {| fn := user_fn 1; threshold := PICOLOG_INFO_LEVEL |} ∧
  r ≠ (PICOLOG_ERR_NONE,
       <[0%nat := {| fn := user_fn 1; threshold := PICOLOG_INFO_LEVEL |}]>
         tbl).
Proof. cbv zeta. split_and!; compute_done. Qed.

(** C4 as amended, at a table with slots 0 to 3 free. *)
Lemma subscribe_new_takes_last_free_witness :
  let tbl :=
    [ zero_subscriber; zero_subscriber; zero_subscriber; zero_subscriber;
      {| fn := user_fn 2; threshold := PICOLOG_ERROR_LEVEL |};
      {| fn := user_fn 1; threshold := PICOLOG_DEBUG_LEVEL |} ] in
  length tbl = PICOLOG_MAX_SUBSCRIBERS (picolog_config := default_config) ∧
  (user_fn 3 ∉ fns tbl) ∧ NULL ∈ fns tbl ∧
  ∃ k s, last_free tbl = Some k ∧ tbl !! k = Some s ∧ fn s = NULL ∧
         (∀ k' s', (k < k')%nat → tbl !! k' = Some s' → fn s' ≠ NULL) ∧
         picolog_subscribe (cfg := default_config) (user_fn 3)
           PICOLOG_INFO_LEVEL tbl =
           (PICOLOG_ERR_NONE,
            <[k := {| fn := user_fn 3; threshold := PICOLOG_INFO_LEVEL |}]>
              tbl).
Proof.
  intros tbl.
  assert (length tbl = PICOLOG_MAX_SUBSCRIBERS (picolog_config := default_config))
    as Hlen by reflexivity.
  assert (user_fn 3 ∉ fns tbl) as Hnew by compute_done.
  assert (NULL ∈ fns tbl) as Hfree by compute_done.
  split_and!; [done..|].
  apply (subscribe_new_takes_last_free (cfg := default_config)); done.
Defined.

(** C5 at a table that holds the callback 1 and does not hold 9. *)
Lemma unsubscribe_clears_or_reports_witness :
  let tbl :=
    [ zero_subscriber; zero_subscriber; zero_subscriber; zero_subscriber;
      {| fn := user_fn 2; threshold := PICOLOG_ERROR_LEVEL |};
      {| fn := user_fn 1; threshold := PICOLOG_DEBUG_LEVEL |} ] in
  length tbl = PICOLOG_MAX_SUBSCRIBERS (picolog_config := default_config) ∧
  registry_inv (cfg := default_config) tbl ∧
  user_fn 1 ∈ fns tbl ∧ user_fn 1 ≠ NULL ∧ (user_fn 9 ∉ fns tbl) ∧
  fst (picolog_unsubscribe (cfg := default_config) (user_fn 1) tbl)
    = PICOLOG_ERR_NONE ∧
  (user_fn 1 ∉
     fns (snd (picolog_unsubscribe (cfg := default_config) (user_fn 1) tbl))) ∧
  picolog_unsubscribe (cfg := default_config) (user_fn 9) tbl
    = (PICOLOG_ERR_NOT_SUBSCRIBED, tbl).
Proof.
  intros tbl.
  assert (length tbl = PICOLOG_MAX_SUBSCRIBERS (picolog_config := default_config))
    as Hlen by reflexivity.
  assert (registry_inv (cfg := default_config) tbl) as Hinv by compute_done.
  assert (user_fn 1 ∈ fns tbl) as Hin by compute_done.
  assert (user_fn 1 ≠ NULL) as Hlive by done.
  assert (user_fn 9 ∉ fns tbl) as Hout by compute_done.
  split_and!; [done..| | |].
  - destruct (unsubscribe_clears_or_reports (cfg := default_config)
                (user_fn 1) tbl Hlen) as [Hclear _].
    destruct (Hclear Hin) as (j & s & _ & _ & -> & _). done.
  - destruct (unsubscribe_clears_or_reports (cfg := default_config)
                (user_fn 1) tbl Hlen) as [Hclear _].
    destruct (Hclear Hin) as (j & s & _ & _ & _ & _ & _ & Hgone).
    by apply Hgone.
  - destruct (unsubscribe_clears_or_reports (cfg := default_config)
                (user_fn 9) tbl Hlen) as [_ Hreport].
    by apply Hreport.
Defined.

(** C9 from the zeroed table of program start. *)
Lemma registry_invariant_preserved_witness :
  let tbl := memset_subscribers (cfg := default_config) in
  let ops :=
    [ Op_init PICOLOG_INFO_LEVEL;
      Op_subscribe (user_fn 1) PICOLOG_DEBUG_LEVEL;
      Op_subscribe (user_fn 1) PICOLOG_ERROR_LEVEL;
      Op_subscribe NULL PICOLOG_TRACE_LEVEL;
      Op_unsubscribe picolog_format;
      Op_subscribe (user_fn 2) PICOLOG_ALWAYS_LEVEL ] in
  registry_inv (cfg := default_config) tbl ∧
  registry_inv (cfg := default_config)
    (run_ops (cfg := default_config) unit ops tbl) ∧
  NoDup (fn <$> live (run_ops (cfg := default_config) unit ops tbl)).
Proof.
  intros tbl ops.
  assert (registry_inv (cfg := default_config) tbl) as Hinv by compute_done.
  split; [done|].
  destruct (registry_invariant_preserved (cfg := default_config) unit
              ops tbl Hinv) as (? & _ & _ & ? & _).
  done.
Defined.

(** C1 at the scenario of two sinks, A at DEBUG and B at ERROR: an INFO
    message does not call B. *)
Lemma message_invokes_iff_threshold_witness :
  let tbl :=
    [ zero_subscriber; zero_subscriber; zero_subscriber; zero_subscriber;
      {| fn := user_fn 2; threshold := PICOLOG_ERROR_LEVEL |};
      {| fn := user_fn 1; threshold := PICOLOG_DEBUG_LEVEL |} ] in
  let buf := replicate 120 NUL in
  let s := {| fn := user_fn 2; threshold := PICOLOG_ERROR_LEVEL |} in
  registry_inv (cfg := default_config) tbl ∧
  buffer_inv (cfg := default_config) buf ∧
  tbl !! 4%nat = Some s ∧ fn s ≠ NULL ∧
  ∃ buf' tr,
    picolog_message (cfg := default_config) (λ fmt (_ : unit), fmt)
      PICOLOG_INFO_LEVEL [x62; x6f; x6f; x6d] tt tbl buf = Some (buf', tr) ∧
    ¬ (PICOLOG_INFO_LEVEL >= threshold s) ∧
    calls_to (fn s) tr = 0%nat.
Proof.
  intros tbl buf s.
  assert (registry_inv (cfg := default_config) tbl) as Hinv by compute_done.
  assert (buffer_inv (cfg := default_config) buf) as Hbuf by reflexivity.
  assert (tbl !! 4%nat = Some s) as Hs by reflexivity.
  assert (fn s ≠ NULL) as Hlive by done.
  split_and!; [done..|].
  destruct (message_invokes_iff_threshold (cfg := default_config) unit
              (λ fmt _, fmt) PICOLOG_INFO_LEVEL [x62; x6f; x6f; x6d] tt
              tbl buf 4%nat s Hinv Hbuf Hs Hlive)
    as (buf' & tr & Hm & _ & _ & Hcount).
  exists buf', tr. split_and!; [done|compute_done|].
  rewrite Hcount. reflexivity.
Defined.

(** The 49 pairs of the level enumeration, run: a subscriber in slot 5
    with threshold T is called by a message of severity S once when
    S >= T and not at all otherwise. *)
Example message_level_pairs :
  Forall (λ S,
    Forall (λ T,
      (λ r, calls_to (user_fn 1) r.2) <$>
        picolog_message (cfg := default_config) (λ fmt (_ : unit), fmt)
          S [x62; x6f; x6f; x6d] tt
          [ zero_subscriber; zero_subscriber; zero_subscriber;
            zero_subscriber; zero_subscriber;
            {| fn := user_fn 1; threshold := T |} ]
          (replicate 120 NUL)
      = Some (if bool_decide (S >= T) then 1%nat else 0%nat))
      picolog_levels)
    picolog_levels.
Proof. compute_done. Qed.

(** C2 as stated fails in two ways.  In a table filled by six other
    callbacks each subscribe(f, t) returns SubscribersExceeded and f gets
    no entry; and subscribe(NULL, t), which returns success, leaves four
    slots that hold NULL, not one. *)
Lemma resubscribe_same_callback_counterexample :
  let full :=
    [ {| fn := user_fn 1; threshold := PICOLOG_TRACE_LEVEL |};
      {| fn := user_fn 2; threshold := PICOLOG_DEBUG_LEVEL |};
      {| fn := user_fn 3; threshold := PICOLOG_INFO_LEVEL |};
      {| fn := user_fn 4; threshold := PICOLOG_WARNING_LEVEL |};
      {| fn := user_fn 5; threshold := PICOLOG_ERROR_LEVEL |};
      {| fn := picolog_format; threshold := PICOLOG_ALWAYS_LEVEL |} ] in
  let tbl :=
    [ zero_subscriber; zero_subscriber; zero_subscriber; zero_subscriber;
      {| fn := user_fn 2; threshold := PICOLOG_ERROR_LEVEL |};
      {| fn := user_fn 1; threshold := PICOLOG_DEBUG_LEVEL |} ] in
  let ts := [PICOLOG_INFO_LEVEL; PICOLOG_ERROR_LEVEL] in
  let r := subscribe_seq (cfg := default_config) (user_fn 7) ts full in
  let r0 := subscribe_seq (cfg := default_config) NULL ts tbl in
  registry_inv (cfg := default_config) full ∧
  fst r = [PICOLOG_ERR_SUBSCRIBERS_EXCEEDED;
           PICOLOG_ERR_SUBSCRIBERS_EXCEEDED] ∧
  entries_of (user_fn 7) (snd r) = [] ∧
  registry_inv (cfg := default_config) tbl ∧
  fst r0 = [PICOLOG_ERR_NONE; PICOLOG_ERR_NONE] ∧
  length (entries_of NULL (snd r0)) = 4%nat.
Proof. cbv zeta. split_and!; compute_done. Qed.

(** C2 for a callback that is not registered yet, subscribed three
    times in a table with free slots. *)
Lemma resubscribe_same_callback_witness :
  let tbl :=
    [ zero_subscriber; zero_subscriber; zero_subscriber; zero_subscriber;
      {| fn := user_fn 2; threshold := PICOLOG_ERROR_LEVEL |};
      {| fn := user_fn 1; threshold := PICOLOG_DEBUG_LEVEL |} ] in
  let ts := [PICOLOG_WARNING_LEVEL; PICOLOG_TRACE_LEVEL] in
  registry_inv (cfg := default_config) tbl ∧
  user_fn 3 ≠ NULL ∧
  (user_fn 3 ∈ fns tbl ∨ NULL ∈ fns tbl) ∧
  fst (subscribe_seq (cfg := default_config) (user_fn 3)
         (PICOLOG_INFO_LEVEL :: ts) tbl)
    = [PICOLOG_ERR_NONE; PICOLOG_ERR_NONE; PICOLOG_ERR_NONE] ∧
  entries_of (user_fn 3)
    (snd (subscribe_seq (cfg := default_config) (user_fn 3)
            (PICOLOG_INFO_LEVEL :: ts) tbl))
    = [{| fn := user_fn 3; threshold := PICOLOG_TRACE_LEVEL |}].
Proof.
  intros tbl ts.
  assert (registry_inv (cfg := default_config) tbl) as Hinv by compute_done.
  assert (user_fn 3 ≠ NULL) as Hf by done.
  assert (user_fn 3 ∈ fns tbl ∨ NULL ∈ fns tbl) as Hroom
    by (right; compute_done).
  split_and!; [done..| |].
  - by destruct (resubscribe_same_callback (cfg := default_config)
                   (user_fn 3) PICOLOG_INFO_LEVEL ts tbl Hinv Hf Hroom)
      as (-> & _).
  - by destruct (resubscribe_same_callback (cfg := default_config)
                   (user_fn 3) PICOLOG_INFO_LEVEL ts tbl Hinv Hf Hroom)
      as (_ & -> & _).
Defined.

(** C6 at the scenario of two sinks: a CRITICAL message goes to slot 4
    and then to slot 5, with one text. *)
Lemma message_formats_once_delivers_in_order_witness :
  let tbl :=
    [ zero_subscriber; zero_subscriber; zero_subscriber; zero_subscriber;
      {| fn := user_fn 2; threshold := PICOLOG_ERROR_LEVEL |};
      {| fn := user_fn 1; threshold := PICOLOG_DEBUG_LEVEL |} ] in
  let buf := replicate 120 NUL in
  registry_inv (cfg := default_config) tbl ∧
  buffer_inv (cfg := default_config) buf ∧
  ∃ buf' tr,
    picolog_message (cfg := default_config) (λ fmt (_ : unit), fmt)
      PICOLOG_CRITICAL_LEVEL [x62; x6f; x6f; x6d] tt tbl buf
      = Some (buf', tr) ∧
    tr = [ Ev_vsnprintf 120 [x62; x6f; x6f; x6d] tt;
           Ev_call (user_fn 2) PICOLOG_CRITICAL_LEVEL buf';
           Ev_call (user_fn 1) PICOLOG_CRITICAL_LEVEL buf' ] ∧
    c_string buf' = [x62; x6f; x6f; x6d].
Proof.
  intros tbl buf.
  assert (registry_inv (cfg := default_config) tbl) as Hinv by compute_done.
  assert (buffer_inv (cfg := default_config) buf) as Hbuf by reflexivity.
  split_and!; [done..|].
  destruct (message_formats_once_delivers_in_order (cfg := default_config)
              unit (λ fmt _, fmt) PICOLOG_CRITICAL_LEVEL [x62; x6f; x6f; x6d]
              tt tbl buf Hinv Hbuf)
    as (buf' & tr & Hm & Hv & Htr & _).
  exists buf', tr. split_and!; [done|done|].
  vm_compute in Hv. injection Hv as <-. reflexivity.
Defined.

(** C7 at an expansion of 200 characters: 119 of them are delivered. *)
Lemma message_text_bounded_and_terminated_witness :
  let tbl :=
    [ zero_subscriber; zero_subscriber; zero_subscriber; zero_subscriber;
      {| fn := user_fn 2; threshold := PICOLOG_ERROR_LEVEL |};
      {| fn := user_fn 1; threshold := PICOLOG_DEBUG_LEVEL |} ] in
  let buf := replicate 120 x2e in
  length tbl = PICOLOG_MAX_SUBSCRIBERS (picolog_config := default_config) ∧
  buffer_inv (cfg := default_config) buf ∧
  ∃ buf' tr,
    picolog_message (cfg := default_config) (λ fmt (_ : unit), fmt)
      PICOLOG_ALWAYS_LEVEL (replicate 200 x41) tt tbl buf
      = Some (buf', tr) ∧
    length buf' = 120%nat ∧
    c_string buf' = replicate 119 x41.
Proof.
  intros tbl buf.
  assert (length tbl = PICOLOG_MAX_SUBSCRIBERS (picolog_config := default_config))
    as Hlen by reflexivity.
  assert (buffer_inv (cfg := default_config) buf) as Hbuf by reflexivity.
  split_and!; [done..|].
  destruct (message_text_bounded_and_terminated (cfg := default_config)
              unit (λ fmt _, fmt) PICOLOG_ALWAYS_LEVEL (replicate 200 x41)
              tt tbl buf Hlen Hbuf)
    as (buf' & tr & Hm & Hsize & _ & _ & Htext & _).
  exists buf', tr. split_and!; [done|done|].
  rewrite Htext. reflexivity.
Defined.

(** C8 at a table with two subscribers, re-initialised at WARNING: an
    ALWAYS message reaches picolog_format alone. *)
Lemma init_resets_then_subscribes_witness :
  let tbl :=
    [ zero_subscriber; zero_subscriber; zero_subscriber; zero_subscriber;
      {| fn := user_fn 2; threshold := PICOLOG_ERROR_LEVEL |};
      {| fn := user_fn 1; threshold := PICOLOG_DEBUG_LEVEL |} ] in
  let buf := replicate 120 NUL in
  buffer_inv (cfg := default_config) buf ∧
  user_fn 1 ≠ picolog_format ∧
  ∃ buf' tr,
    picolog_message (cfg := default_config) (λ fmt (_ : unit), fmt)
      PICOLOG_ALWAYS_LEVEL [x62; x6f; x6f; x6d] tt
      (snd (picolog_init (cfg := default_config) unit
              PICOLOG_WARNING_LEVEL tbl)) buf
      = Some (buf', tr) ∧
    calls_to (user_fn 1) tr = 0%nat ∧
    calls_to picolog_format tr = 1%nat.
Proof.
  intros tbl buf.
  assert (buffer_inv (cfg := default_config) buf) as Hbuf by reflexivity.
  assert (user_fn 1 ≠ picolog_format) as Hf by done.
  split_and!; [done..|].
  destruct (init_resets_then_subscribes (cfg := default_config) unit
              (λ fmt _, fmt) PICOLOG_WARNING_LEVEL tbl)
    as (_ & _ & _ & _ & Hafter).
  destruct (Hafter PICOLOG_ALWAYS_LEVEL [x62; x6f; x6f; x6d] tt buf Hbuf)
    as (buf' & tr & Hm & Hnone & Hone).
  exists buf', tr. split_and!; [done|by apply Hnone|].
  rewrite Hone. reflexivity.
Defined.

(** C10 at a table with free slots and at a table without. *)
Lemma null_callback_is_free_marker_witness :
  let tbl :=
    [ zero_subscriber; zero_subscriber; zero_subscriber; zero_subscriber;
      {| fn := user_fn 2; threshold := PICOLOG_ERROR_LEVEL |};
      {| fn := user_fn 1; threshold := PICOLOG_DEBUG_LEVEL |} ] in
  let full :=
    [ {| fn := user_fn 1; threshold := PICOLOG_TRACE_LEVEL |};
      {| fn := user_fn 2; threshold := PICOLOG_DEBUG_LEVEL |};
      {| fn := user_fn 3; threshold := PICOLOG_INFO_LEVEL |};
      {| fn := user_fn 4; threshold := PICOLOG_WARNING_LEVEL |};
      {| fn := user_fn 5; threshold := PICOLOG_ERROR_LEVEL |};
      {| fn := picolog_format; threshold := PICOLOG_ALWAYS_LEVEL |} ] in
  length tbl = PICOLOG_MAX_SUBSCRIBERS (picolog_config := default_config) ∧
  length full = PICOLOG_MAX_SUBSCRIBERS (picolog_config := default_config) ∧
  NULL ∈ fns tbl ∧ (NULL ∉ fns full) ∧
  fst (picolog_subscribe (cfg := default_config) NULL
         PICOLOG_TRACE_LEVEL tbl) = PICOLOG_ERR_NONE ∧
  live (snd (picolog_subscribe (cfg := default_config) NULL
               PICOLOG_TRACE_LEVEL tbl)) = live tbl ∧
  picolog_unsubscribe (cfg := default_config) NULL tbl
    = (PICOLOG_ERR_NONE, tbl) ∧
  picolog_subscribe (cfg := default_config) NULL PICOLOG_TRACE_LEVEL full
    = (PICOLOG_ERR_SUBSCRIBERS_EXCEEDED, full) ∧
  picolog_unsubscribe (cfg := default_config) NULL full
    = (PICOLOG_ERR_NOT_SUBSCRIBED, full).
Proof.
  intros tbl full.
  assert (length tbl = PICOLOG_MAX_SUBSCRIBERS (picolog_config := default_config))
    as Hlen by reflexivity.
  assert (length full = PICOLOG_MAX_SUBSCRIBERS (picolog_config := default_config))
    as Hlen' by reflexivity.
  assert (NULL ∈ fns tbl) as Hfree by compute_done.
  assert (NULL ∉ fns full) as Hfull by compute_done.
  destruct (null_callback_is_free_marker (cfg := default_config) unit
              (λ fmt _, fmt) PICOLOG_TRACE_LEVEL tbl Hlen) as [Hsome _].
  destruct (null_callback_is_free_marker (cfg := default_config) unit
              (λ fmt _, fmt) PICOLOG_TRACE_LEVEL full Hlen') as [_ Hnone].
  destruct (Hsome Hfree) as (? & _ & ? & _ & ? & _).
  destruct (Hnone Hfull) as [? ?].
  by split_and!.
Defined.

Arguments picolog_format_body {va_list} severity msg.
Arguments printed {va_list} e.
Arguments stdout_of {va_list} tr.
Arguments PICOLOG_TRACE {cfg va_list} printf_expand fmt ap
  s_subscribers s_message.
Arguments PICOLOG_ALWAYS {cfg va_list} printf_expand fmt ap
  s_subscribers s_message.

(** ** The further properties at the header's configuration *)

Lemma subscribe_result_characterised_witness :
  let tbl :=
    [ zero_subscriber; zero_subscriber; zero_subscriber; zero_subscriber;
      {| fn := user_fn 2; threshold := PICOLOG_ERROR_LEVEL |};
      {| fn := user_fn 1; threshold := PICOLOG_DEBUG_LEVEL |} ] in
  length tbl = PICOLOG_MAX_SUBSCRIBERS (picolog_config := default_config) ∧
  (user_fn 3 ∈ fns tbl ∨ NULL ∈ fns tbl) ∧
  fst (picolog_subscribe (cfg := default_config) (user_fn 3)
         PICOLOG_INFO_LEVEL tbl) = PICOLOG_ERR_NONE.
Proof.
  intros tbl.
  assert (length tbl = PICOLOG_MAX_SUBSCRIBERS (picolog_config := default_config))
    as Hlen by reflexivity.
  assert (user_fn 3 ∈ fns tbl ∨ NULL ∈ fns tbl) as Hroom
    by (right; compute_done).
  split_and!; [done..|].
  destruct (subscribe_result_characterised (cfg := default_config)
              (user_fn 3) PICOLOG_INFO_LEVEL tbl Hlen) as (Hok & _).
  by apply Hok.
Defined.

Lemma unsubscribe_result_characterised_witness :
  let tbl :=
    [ zero_subscriber; zero_subscriber; zero_subscriber; zero_subscriber;
      {| fn := user_fn 2; threshold := PICOLOG_ERROR_LEVEL |};
      {| fn := user_fn 1; threshold := PICOLOG_DEBUG_LEVEL |} ] in
  length tbl = PICOLOG_MAX_SUBSCRIBERS (picolog_config := default_config) ∧
  (user_fn 9 ∉ fns tbl) ∧
  fst (picolog_unsubscribe (cfg := default_config) (user_fn 9) tbl)
    = PICOLOG_ERR_NOT_SUBSCRIBED.
Proof.
  intros tbl.
  assert (length tbl = PICOLOG_MAX_SUBSCRIBERS (picolog_config := default_config))
    as Hlen by reflexivity.
  assert (user_fn 9 ∉ fns tbl) as Hout by compute_done.
  split_and!; [done..|].
  destruct (unsubscribe_result_characterised (cfg := default_config)
              (user_fn 9) tbl Hlen) as (_ & Hno & _).
  by apply Hno.
Defined.

Lemma subscribe_idempotent_witness :
  let tbl :=
    [ zero_subscriber; zero_subscriber; zero_subscriber; zero_subscriber;
      {| fn := user_fn 2; threshold := PICOLOG_ERROR_LEVEL |};
      {| fn := user_fn 1; threshold := PICOLOG_DEBUG_LEVEL |} ] in
  length tbl = PICOLOG_MAX_SUBSCRIBERS (picolog_config := default_config) ∧
  picolog_subscribe (cfg := default_config) NULL PICOLOG_INFO_LEVEL
    (snd (picolog_subscribe (cfg := default_config) NULL
            PICOLOG_INFO_LEVEL tbl))
  = picolog_subscribe (cfg := default_config) NULL PICOLOG_INFO_LEVEL tbl.
Proof.
  intros tbl.
  assert (length tbl = PICOLOG_MAX_SUBSCRIBERS (picolog_config := default_config))
    as Hlen by reflexivity.
  split; [done|].
  by apply (subscribe_idempotent (cfg := default_config)).
Defined.

Lemma registry_calls_frame_witness :
  let tbl :=
    [ zero_subscriber; zero_subscriber; zero_subscriber; zero_subscriber;
      {| fn := user_fn 2; threshold := PICOLOG_ERROR_LEVEL |};
      {| fn := user_fn 1; threshold := PICOLOG_DEBUG_LEVEL |} ] in
  length tbl = PICOLOG_MAX_SUBSCRIBERS (picolog_config := default_config) ∧
  user_fn 2 ≠ user_fn 1 ∧ user_fn 2 ≠ NULL ∧
  entries_of (user_fn 2)
    (snd (picolog_subscribe (cfg := default_config) (user_fn 1)
            PICOLOG_ALWAYS_LEVEL tbl)) = entries_of (user_fn 2) tbl ∧
  entries_of (user_fn 2)
    (snd (picolog_unsubscribe (cfg := default_config) (user_fn 1) tbl))
    = entries_of (user_fn 2) tbl.
Proof.
  intros tbl.
  assert (length tbl = PICOLOG_MAX_SUBSCRIBERS (picolog_config := default_config))
    as Hlen by reflexivity.
  assert (user_fn 2 ≠ user_fn 1) as Hne by done.
  assert (user_fn 2 ≠ NULL) as Hlive by done.
  split_and!; [done..| |];
    by destruct (registry_calls_frame (cfg := default_config) (user_fn 1)
                   PICOLOG_ALWAYS_LEVEL (user_fn 2) tbl Hlen Hne Hlive).
Defined.

Lemma subscribe_new_iff_not_full_witness :
  let full :=
    [ {| fn := user_fn 1; threshold := PICOLOG_TRACE_LEVEL |};
      {| fn := user_fn 2; threshold := PICOLOG_DEBUG_LEVEL |};
      {| fn := user_fn 3; threshold := PICOLOG_INFO_LEVEL |};
      {| fn := user_fn 4; threshold := PICOLOG_WARNING_LEVEL |};
      {| fn := user_fn 5; threshold := PICOLOG_ERROR_LEVEL |};
      {| fn := picolog_format; threshold := PICOLOG_ALWAYS_LEVEL |} ] in
  length full = PICOLOG_MAX_SUBSCRIBERS (picolog_config := default_config) ∧
  user_fn 7 ≠ NULL ∧ (user_fn 7 ∉ fns full) ∧
  length (live full)
    = PICOLOG_MAX_SUBSCRIBERS (picolog_config := default_config) ∧
  fst (picolog_subscribe (cfg := default_config) (user_fn 7)
         PICOLOG_INFO_LEVEL full) = PICOLOG_ERR_SUBSCRIBERS_EXCEEDED.
Proof.
  intros full.
  assert (length full = PICOLOG_MAX_SUBSCRIBERS (picolog_config := default_config))
    as Hlen by reflexivity.
  assert (user_fn 7 ≠ NULL) as Hf by done.
  assert (user_fn 7 ∉ fns full) as Hnew by compute_done.
  assert (length (live full)
          = PICOLOG_MAX_SUBSCRIBERS (picolog_config := default_config))
    as Hall by reflexivity.
  split_and!; [done..|].
  destruct (subscribe_new_iff_not_full (cfg := default_config) (user_fn 7)
              PICOLOG_INFO_LEVEL full Hlen Hf Hnew) as (_ & Hfull & _).
  by apply Hfull.
Defined.

Lemma subscribe_then_unsubscribe_witness :
  let tbl :=
    [ zero_subscriber; zero_subscriber; zero_subscriber; zero_subscriber;
      {| fn := user_fn 2; threshold := PICOLOG_ERROR_LEVEL |};
      {| fn := user_fn 1; threshold := PICOLOG_DEBUG_LEVEL |} ] in
  length tbl = PICOLOG_MAX_SUBSCRIBERS (picolog_config := default_config) ∧
  (user_fn 3 ∉ fns tbl) ∧ NULL ∈ fns tbl ∧
  fst (picolog_unsubscribe (cfg := default_config) (user_fn 3)
         (snd (picolog_subscribe (cfg := default_config) (user_fn 3)
                 PICOLOG_INFO_LEVEL tbl))) = PICOLOG_ERR_NONE ∧
  live (snd (picolog_unsubscribe (cfg := default_config) (user_fn 3)
               (snd (picolog_subscribe (cfg := default_config) (user_fn 3)
                       PICOLOG_INFO_LEVEL tbl)))) = live tbl.
Proof.
  intros tbl.
  assert (length tbl = PICOLOG_MAX_SUBSCRIBERS (picolog_config := default_config))
    as Hlen by reflexivity.
  assert (user_fn 3 ∉ fns tbl) as Hnew by compute_done.
  assert (NULL ∈ fns tbl) as Hfree by compute_done.
  split_and!; [done..| |];
    by destruct (subscribe_then_unsubscribe (cfg := default_config) unit
                   (λ fmt _, fmt) (user_fn 3) PICOLOG_INFO_LEVEL tbl
                   Hlen Hnew Hfree) as (? & _ & ? & _).
Defined.

Lemma unsubscribe_then_subscribe_witness :
  let tbl :=
    [ zero_subscriber;
      {| fn := user_fn 1; threshold := PICOLOG_DEBUG_LEVEL |};
      zero_subscriber; zero_subscriber;
      {| fn := user_fn 2; threshold := PICOLOG_ERROR_LEVEL |};
      zero_subscriber ] in
  registry_inv (cfg := default_config) tbl ∧
  user_fn 1 ≠ NULL ∧ user_fn 1 ∈ fns tbl ∧
  fst (picolog_subscribe (cfg := default_config) (user_fn 1)
         PICOLOG_INFO_LEVEL
         (snd (picolog_unsubscribe (cfg := default_config) (user_fn 1) tbl)))
    = PICOLOG_ERR_NONE ∧
  entries_of (user_fn 1)
    (snd (picolog_subscribe (cfg := default_config) (user_fn 1)
            PICOLOG_INFO_LEVEL
            (snd (picolog_unsubscribe (cfg := default_config)
                    (user_fn 1) tbl))))
    = [{| fn := user_fn 1; threshold := PICOLOG_INFO_LEVEL |}].
Proof.
  intros tbl.
  assert (registry_inv (cfg := default_config) tbl) as Hinv by compute_done.
  assert (user_fn 1 ≠ NULL) as Hf by done.
  assert (user_fn 1 ∈ fns tbl) as Hin by compute_done.
  split_and!; [done..| |];
    by destruct (unsubscribe_then_subscribe (cfg := default_config)
                   (user_fn 1) PICOLOG_INFO_LEVEL tbl Hinv Hf Hin)
      as (? & ? & _).
Defined.

Lemma unsubscribe_silences_witness :
  let tbl :=
    [ zero_subscriber; zero_subscriber; zero_subscriber; zero_subscriber;
      {| fn := user_fn 2; threshold := PICOLOG_ERROR_LEVEL |};
      {| fn := user_fn 1; threshold := PICOLOG_DEBUG_LEVEL |} ] in
  let buf := replicate 120 NUL in
  registry_inv (cfg := default_config) tbl ∧
  user_fn 1 ≠ NULL ∧ user_fn 1 ∈ fns tbl ∧
  buffer_inv (cfg := default_config) buf ∧
  ∃ buf' tr,
    picolog_message (cfg := default_config) (λ fmt (_ : unit), fmt)
      PICOLOG_ALWAYS_LEVEL [x62; x6f; x6f; x6d] tt
      (snd (picolog_unsubscribe (cfg := default_config) (user_fn 1) tbl)) buf
      = Some (buf', tr) ∧
    calls_to (user_fn 1) tr = 0%nat.
Proof.
  intros tbl buf.
  assert (registry_inv (cfg := default_config) tbl) as Hinv by compute_done.
  assert (user_fn 1 ≠ NULL) as Hf by done.
  assert (user_fn 1 ∈ fns tbl) as Hin by compute_done.
  assert (buffer_inv (cfg := default_config) buf) as Hbuf by reflexivity.
  split_and!; [done..|].
  destruct (unsubscribe_silences (cfg := default_config) unit (λ fmt _, fmt)
              (user_fn 1) tbl Hinv Hf Hin) as (_ & _ & _ & Hsilent).
  destruct (Hsilent PICOLOG_ALWAYS_LEVEL [x62; x6f; x6f; x6d] tt buf Hbuf)
    as (buf' & tr & _ & Hm & _ & Hnone & _).
  by exists buf', tr.
Defined.

Lemma message_without_listener_witness :
  let tbl :=
    [ zero_subscriber; zero_subscriber; zero_subscriber; zero_subscriber;
      {| fn := user_fn 2; threshold := PICOLOG_ERROR_LEVEL |};
      {| fn := user_fn 1; threshold := PICOLOG_DEBUG_LEVEL |} ] in
  let buf := replicate 120 x2e in
  length tbl = PICOLOG_MAX_SUBSCRIBERS (picolog_config := default_config) ∧
  buffer_inv (cfg := default_config) buf ∧
  (∀ s, s ∈ tbl → fn s = NULL ∨ PICOLOG_TRACE_LEVEL < threshold s) ∧
  ∃ buf',
    picolog_message (cfg := default_config) (λ fmt (_ : unit), fmt)
      PICOLOG_TRACE_LEVEL [x62; x6f; x6f; x6d] tt tbl buf
      = Some (buf', [Ev_vsnprintf 120 [x62; x6f; x6f; x6d] tt]) ∧
    c_string buf' = [x62; x6f; x6f; x6d].
Proof.
  intros tbl buf.
  assert (length tbl = PICOLOG_MAX_SUBSCRIBERS (picolog_config := default_config))
    as Hlen by reflexivity.
  assert (buffer_inv (cfg := default_config) buf) as Hbuf by reflexivity.
  assert (∀ s, s ∈ tbl → fn s = NULL ∨ PICOLOG_TRACE_LEVEL < threshold s)
    as Hnone.
  { apply Forall_forall. repeat constructor; by (left + right). }
  split_and!; [done..|].
  destruct (message_without_listener (cfg := default_config) unit
              (λ fmt _, fmt) PICOLOG_TRACE_LEVEL [x62; x6f; x6f; x6d] tt
              tbl buf Hlen Hbuf Hnone) as (buf' & Hm & Htext).
  exists buf'. split; [done|]. rewrite Htext. reflexivity.
Defined.

Lemma macros_at_the_ends_witness :
  let tbl :=
    [ zero_subscriber; zero_subscriber; zero_subscriber; zero_subscriber;
      {| fn := user_fn 2; threshold := PICOLOG_ERROR_LEVEL |};
      {| fn := user_fn 1; threshold := PICOLOG_DEBUG_LEVEL |} ] in
  let buf := replicate 120 NUL in
  let s := {| fn := user_fn 2; threshold := PICOLOG_ERROR_LEVEL |} in
  registry_inv (cfg := default_config) tbl ∧
  buffer_inv (cfg := default_config) buf ∧
  tbl !! 4%nat = Some s ∧ fn s ≠ NULL ∧ threshold s ∈ picolog_levels ∧
  (∃ buf' tr,
     PICOLOG_ALWAYS (cfg := default_config) (λ fmt (_ : unit), fmt)
       [x62; x6f; x6f; x6d] tt tbl buf = Some (buf', tr) ∧
     calls_to (user_fn 2) tr = 1%nat) ∧
  (∃ buf' tr,
     PICOLOG_TRACE (cfg := default_config) (λ fmt (_ : unit), fmt)
       [x62; x6f; x6f; x6d] tt tbl buf = Some (buf', tr) ∧
     calls_to (user_fn 2) tr = 0%nat).
Proof.
  intros tbl buf s.
  assert (registry_inv (cfg := default_config) tbl) as Hinv by compute_done.
  assert (buffer_inv (cfg := default_config) buf) as Hbuf by reflexivity.
  assert (tbl !! 4%nat = Some s) as Hs by reflexivity.
  assert (fn s ≠ NULL) as Hlive by done.
  assert (threshold s ∈ picolog_levels) as Hlevel by compute_done.
  split_and!; [done..| |].
  - by destruct (macros_at_the_ends (cfg := default_config) unit
                   (λ fmt _, fmt) [x62; x6f; x6f; x6d] tt tbl buf 4%nat s
                   Hinv Hbuf Hs Hlive Hlevel) as [? _].
  - by destruct (macros_at_the_ends (cfg := default_config) unit
                   (λ fmt _, fmt) [x62; x6f; x6f; x6d] tt tbl buf 4%nat s
                   Hinv Hbuf Hs Hlive Hlevel) as [_ ?].
Defined.

Lemma delivery_order_after_init_witness :
  let subs :=
    [ {| fn := user_fn 1; threshold := PICOLOG_DEBUG_LEVEL |};
      {| fn := user_fn 2; threshold := PICOLOG_ERROR_LEVEL |} ] in
  NoDup (fn <$> subs) ∧
  (∀ s, s ∈ subs → fn s ≠ NULL ∧ fn s ≠ picolog_format) ∧
  (length subs < PICOLOG_MAX_SUBSCRIBERS (picolog_config := default_config))%nat ∧
  subscribe_all (cfg := default_config) subs
    (snd (picolog_init (cfg := default_config) unit PICOLOG_INFO_LEVEL []))
  = [ zero_subscriber; zero_subscriber; zero_subscriber;
      {| fn := user_fn 2; threshold := PICOLOG_ERROR_LEVEL |};
      {| fn := user_fn 1; threshold := PICOLOG_DEBUG_LEVEL |};
      {| fn := picolog_format; threshold := PICOLOG_INFO_LEVEL |} ].
Proof.
  intros subs.
  assert (NoDup (fn <$> subs)) as Hnd by compute_done.
  assert (∀ s, s ∈ subs → fn s ≠ NULL ∧ fn s ≠ picolog_format) as Hsubs.
  { apply Forall_forall. by repeat constructor. }
  assert (length subs
          < PICOLOG_MAX_SUBSCRIBERS (picolog_config := default_config))%nat
    as Hlt by (cbn; lia).
  split_and!; [done..|].
  destruct (delivery_order_after_init (cfg := default_config) unit
              (λ fmt _, fmt) PICOLOG_INFO_LEVEL [] subs Hnd Hsubs Hlt)
    as [-> _].
  reflexivity.
Defined.

Lemma console_after_init_witness :
  let buf := replicate 120 NUL in
  buffer_inv (cfg := default_config) buf ∧
  ∃ buf' tr,
    picolog_message (cfg := default_config) (λ fmt (_ : unit), fmt)
      PICOLOG_WARNING_LEVEL [x62; x6f; x6f; x6d] tt
      (snd (picolog_init (cfg := default_config) unit PICOLOG_INFO_LEVEL []))
      buf = Some (buf', tr) ∧
    stdout_of tr =
      YELLOW ++ [x5b] ++ [x57; x41; x52; x4e; x49; x4e; x47] ++ [x5d; x20] ++
      [x62; x6f; x6f; x6d] ++ [x20] ++ NORMAL ++ [x0a].
Proof.
  intros buf.
  assert (buffer_inv (cfg := default_config) buf) as Hbuf by reflexivity.
  split; [done|].
  destruct (console_after_init (cfg := default_config) unit (λ fmt _, fmt)
              PICOLOG_INFO_LEVEL [] PICOLOG_WARNING_LEVEL
              [x62; x6f; x6f; x6d] tt buf Hbuf)
    as (buf' & tr & Hm & Hout & _).
  exists buf', tr. split; [done|]. rewrite Hout.
  vm_compute in Hm. injection Hm as <- _. reflexivity.
Defined.
